(** * web_monitoring: the Wayback client, its retrying session and the
      import pipeline's pure parts

    A shallow embedding of [web_monitoring/internetarchive.py] and
    [web_monitoring/cli.py].

    Conventions.
    - A Python [str] is a [string] of 8-bit characters.  The character
      classes and case mappings below are the ASCII ones: characters above
      127 are carried unchanged, belong to no class and have no case.
    - A Python [int] is a [Z]; true division [/] of two ints is the exact
      rational in [Q] (the float CPython returns is its rounding).
    - A [dict] is a [gmap], a [set] a [gset]; a dict whose iteration order
      matters is an association list.
    - An exception is a value of [exn]; a fallible function returns
      [exn + A]. *)

From Stdlib Require Import ZArith QArith Ascii String List Lia Bool DecimalString.
From stdpp Require Import base option gmap strings list.

Local Open Scope string_scope.

(** ** Python string primitives *)

Module Py.

Definition LF : ascii := "010"%char.

Definition code (c : ascii) : nat := nat_of_ascii c.

Definition between (lo hi : nat) (c : ascii) : bool :=
  (lo <=? code c)%nat && (code c <=? hi)%nat.

Definition is_upper : ascii -> bool := between 65 90.
Definition is_lower : ascii -> bool := between 97 122.
Definition is_digit : ascii -> bool := between 48 57.

(** [\w] *)
Definition is_word (c : ascii) : bool :=
  is_upper c || is_lower c || is_digit c || Ascii.eqb c "_".

Definition lower_char (c : ascii) : ascii :=
  if is_upper c then ascii_of_nat (code c + 32) else c.

(** [str.lower] *)
Fixpoint lower (s : string) : string :=
  match s with
  | EmptyString => EmptyString
  | String c s' => String (lower_char c) (lower s')
  end.

(** [str.casefold]; on ASCII it is [lower]. *)
Definition casefold (s : string) : string := lower s.

(** [s.startswith(p)], returning what follows the prefix. *)
Fixpoint strip_prefix (p s : string) : option string :=
  match p, s with
  | EmptyString, _ => Some s
  | String a p', String b s' =>
      if Ascii.eqb a b then strip_prefix p' s' else None
  | String _ _, EmptyString => None
  end.

Definition startswith (p s : string) : bool :=
  match strip_prefix p s with Some _ => true | None => false end.

(** [s.endswith(c)] for a one-character suffix. *)
Fixpoint endswith_char (c : ascii) (s : string) : bool :=
  match s with
  | EmptyString => false
  | String a EmptyString => Ascii.eqb a c
  | String _ s' => endswith_char c s'
  end.

(** [s[:-1]] *)
Fixpoint drop_last (s : string) : string :=
  match s with
  | EmptyString => EmptyString
  | String _ EmptyString => EmptyString
  | String a s' => String a (drop_last s')
  end.

(** [s.split(sep, 1)[0]]: what precedes the first [sep], or all of [s]. *)
Fixpoint split_first (sep : ascii) (s : string) : string :=
  match s with
  | EmptyString => EmptyString
  | String c s' =>
      if Ascii.eqb c sep then EmptyString else String c (split_first sep s')
  end.

(** [sub in s] *)
Fixpoint contains (sub s : string) : bool :=
  startswith sub s ||
  match s with
  | EmptyString => false
  | String _ s' => contains sub s'
  end.

(** The longest prefix of characters satisfying [p], and the rest. *)
Fixpoint span (p : ascii -> bool) (s : string) : string * string :=
  match s with
  | EmptyString => (EmptyString, EmptyString)
  | String c s' =>
      if p c then let (a, b) := span p s' in (String c a, b)
      else (EmptyString, s)
  end.

Fixpoint all_chars (p : ascii -> bool) (s : string) : bool :=
  match s with
  | EmptyString => true
  | String c s' => p c && all_chars p s'
  end.

(** The regular expression anchor [$] (no MULTILINE flag): it holds at
    the end of the string and just before a final line feed.  The result
    is the text that the match leaves behind. *)
Definition dollar (s : string) : option string :=
  match s with
  | EmptyString => Some EmptyString
  | String c EmptyString =>
      if Ascii.eqb c LF then Some s else None
  | _ => None
  end.

(** A greedy dot-star group followed by [$]: the dot does not match a
    line feed.  Returns the group and the text left behind. *)
Definition dot_star_dollar (s : string) : option (string * string) :=
  let (g, r) := span (fun c => negb (Ascii.eqb c LF)) s in
  match dollar r with
  | Some left_over => Some (g, left_over)
  | None => None
  end.

End Py.

(** ** cli.py: [rough_url_key] (the private [_rough_url_key] of the source) *)

(** One attempt to match [INDEX_PAGE_EXPRESSION = index(\.\w+)?$] at the
    head of [s]; the result is the text after the match. *)
Definition index_page_ext (s : string) : option string :=
  match s with
  | String "."%char (String c s') =>
      if Py.is_word c then Py.dollar (snd (Py.span Py.is_word s')) else None
  | _ => None
  end.

Definition index_page_match (s : string) : option string :=
  match Py.strip_prefix "index" s with
  | None => None
  | Some r =>
      match index_page_ext r with
      | Some left_over => Some left_over
      | None => Py.dollar r
      end
  end.

(** [INDEX_PAGE_EXPRESSION.sub('', s)]: the leftmost match is removed.  A
    match reaches the end of the string (or its final line feed), so there
    is at most one. *)
Fixpoint INDEX_PAGE_EXPRESSION_sub (s : string) : string :=
  match index_page_match s with
  | Some left_over => left_over
  | None =>
      match s with
      | EmptyString => EmptyString
      | String c s' => String c (INDEX_PAGE_EXPRESSION_sub s')
      end
  end.

Definition rough_url_key (url_key : string) : string :=
  let rough_key := Py.lower url_key in
  let rough_key := Py.split_first "?" rough_key in
  let rough_key := Py.split_first "#" rough_key in
  let rough_key := INDEX_PAGE_EXPRESSION_sub rough_key in
  if Py.endswith_char "/" rough_key then Py.drop_last rough_key
  else rough_key.

(** ** internetarchive.py: redundant ports *)

(** [PATTERN.sub(r'\1\2', url)], where the pattern is anchored at the start,
    its group 1 is the scheme followed by one or more characters other than
    a colon and a slash, then comes the port, and group 2 is a greedy
    dot-star up to [$].  [REDUNDANT_HTTP_PORT] has scheme [http://] and
    port [:80], [REDUNDANT_HTTPS_PORT] has [https://] and [:443]. *)
Definition redundant_port_sub (scheme port url : string) : string :=
  match Py.strip_prefix scheme url with
  | None => url
  | Some r =>
      let (host, r') :=
        Py.span (fun c => negb (Ascii.eqb c ":" || Ascii.eqb c "/")) r in
      match host with
      | EmptyString => url
      | _ =>
          match Py.strip_prefix port r' with
          | None => url
          | Some tail =>
              match Py.dot_star_dollar tail with
              | None => url
              | Some (g2, left_over) => scheme +:+ host +:+ g2 +:+ left_over
              end
          end
      end
  end.

Definition REDUNDANT_HTTP_PORT_sub : string -> string :=
  redundant_port_sub "http://" ":80".
Definition REDUNDANT_HTTPS_PORT_sub : string -> string :=
  redundant_port_sub "https://" ":443".

(** [clean_url] of [WaybackClient.search]. *)
Definition clean_url (url : string) : string :=
  REDUNDANT_HTTPS_PORT_sub (REDUNDANT_HTTP_PORT_sub url).

(** ** Exceptions *)

(** The classes of [requests.exceptions] and [urllib3.exceptions] that the
    session names, the subclasses of them that [requests] raises, and
    [OtherError] for every class outside these hierarchies. *)
Inductive error_class :=
  | ConnectTimeoutError   (* urllib3 *)
  | MaxRetryError         (* urllib3 *)
  | ReadTimeoutError      (* urllib3 *)
  | ConnectionError
  | ProxyError            (* a ConnectionError *)
  | SSLError              (* a ConnectionError *)
  | RetryError
  | Timeout
  | ConnectTimeout        (* a ConnectionError and a Timeout *)
  | ReadTimeout           (* a Timeout *)
  | OtherError.

(** A raised transport error: its class and [str(error)]. *)
Record transport_error := {
  error_cls : error_class;
  error_text : string
}.

Inductive exn :=
  | ValueError (msg : string)
  | KeyError (key : string)
  | UnexpectedResponseFormat (text : string)
  | MementoPlaybackError (msg : string)
  | HTTPError (status_code : Z)
  | WaybackRetryError (retries : Z) (total_time : Z) (cause : transport_error)
  | Propagated (error : transport_error).

(** ** datetime *)

Record datetime := {
  year : Z; month : Z; day : Z; hour : Z; minute : Z; second : Z
}.

Record timedelta := { td_days : Z; td_seconds : Z }.

Module Datetime.

Local Open Scope Z_scope.

Definition digit_value (c : ascii) : Z := Z.of_nat (Py.code c) - 48.

(** A two-digit alternative of a directive's pattern, when [ok] accepts
    the two digits. *)
Definition two_digits (ok : Z -> Z -> bool) (s : string)
  : list (Z * string) :=
  match s with
  | String a (String b r) =>
      if Py.is_digit a && Py.is_digit b
         && ok (digit_value a) (digit_value b)
      then [(10 * digit_value a + digit_value b, r)] else []
  | _ => []
  end.

Definition one_digit (ok : Z -> bool) (s : string) : list (Z * string) :=
  match s with
  | String a r =>
      if Py.is_digit a && ok (digit_value a) then [(digit_value a, r)]
      else []
  | _ => []
  end.

(** The directives' patterns of CPython's [_strptime], alternatives in
    the order the pattern lists them. *)

(** [%Y]: four digits. *)
Definition dir_Y (s : string) : list (Z * string) :=
  match s with
  | String a (String b (String c (String d r))) =>
      if Py.is_digit a && Py.is_digit b && Py.is_digit c && Py.is_digit d
      then [(1000 * digit_value a + 100 * digit_value b
             + 10 * digit_value c + digit_value d, r)]
      else []
  | _ => []
  end.

(** [%m]: 1[0-2], 0[1-9], [1-9]. *)
Definition dir_m (s : string) : list (Z * string) :=
  two_digits (fun a b => ((a =? 1) && (b <=? 2)) || ((a =? 0) && (1 <=? b))) s
  ++ one_digit (fun a => 1 <=? a) s.

(** [%d]: 3[01], [12] and a digit, 0[1-9], [1-9], a space and [1-9]. *)
Definition dir_d (s : string) : list (Z * string) :=
  two_digits (fun a b => ((a =? 3) && (b <=? 1)) || (a =? 1) || (a =? 2)
                         || ((a =? 0) && (1 <=? b))) s
  ++ one_digit (fun a => 1 <=? a) s
  ++ match s with
     | String " "%char r => one_digit (fun a => 1 <=? a) r
     | _ => []
     end.

(** [%H]: 2[0-3], [01] and a digit, a digit. *)
Definition dir_H (s : string) : list (Z * string) :=
  two_digits (fun a b => ((a =? 2) && (b <=? 3)) || (a <=? 1)) s
  ++ one_digit (fun _ => true) s.

(** [%M]: [0-5] and a digit, a digit. *)
Definition dir_M (s : string) : list (Z * string) :=
  two_digits (fun a _ => a <=? 5) s ++ one_digit (fun _ => true) s.

(** [%S]: 6[01], [0-5] and a digit, a digit. *)
Definition dir_S (s : string) : list (Z * string) :=
  two_digits (fun a b => ((a =? 6) && (b <=? 1)) || (a <=? 5)) s
  ++ one_digit (fun _ => true) s.

(** All the ways the pattern of [URL_DATE_FORMAT = '%Y%m%d%H%M%S']
    matches at the head of [s], the regular expression engine's first
    choice first. *)
Definition format_matches (s : string) : list (datetime * string) :=
  flat_map (fun '(Y, r) =>
  flat_map (fun '(m, r) =>
  flat_map (fun '(d, r) =>
  flat_map (fun '(H, r) =>
  flat_map (fun '(M, r) =>
  List.map (fun '(sec, r) =>
    ({| year := Y; month := m; day := d;
        hour := H; minute := M; second := sec |}, r))
    (dir_S r)) (dir_M r)) (dir_H r)) (dir_d r)) (dir_m r)) (dir_Y s).

Definition is_leap (y : Z) : bool :=
  (y mod 4 =? 0) && (negb (y mod 100 =? 0) || (y mod 400 =? 0)).

Definition days_in_month (y m : Z) : Z :=
  if m =? 2 then (if is_leap y then 29 else 28)
  else if (m =? 4) || (m =? 6) || (m =? 9) || (m =? 11) then 30
  else 31.

(** The checks of the [datetime] constructor. *)
Definition valid (t : datetime) : bool :=
  (1 <=? year t) && (year t <=? 9999)
  && (1 <=? month t) && (month t <=? 12)
  && (1 <=? day t) && (day t <=? days_in_month (year t) (month t))
  && (0 <=? hour t) && (hour t <=? 23)
  && (0 <=? minute t) && (minute t <=? 59)
  && (0 <=? second t) && (second t <=? 59).

(** [datetime.strptime(s, URL_DATE_FORMAT)]; [None] is [ValueError]
    (no match, unconverted data remains, or a field out of range). *)
Definition strptime (s : string) : option datetime :=
  match format_matches s with
  | (t, EmptyString) :: _ => if valid t then Some t else None
  | _ => None
  end.

Definition days_before_year (y : Z) : Z :=
  let y := y - 1 in y * 365 + y / 4 - y / 100 + y / 400.

Fixpoint days_before_month_aux (y : Z) (m : nat) : Z :=
  match m with
  | O => 0
  | S m' => days_before_month_aux y m' + days_in_month y (Z.of_nat m)
  end.

Definition days_before_month (y m : Z) : Z :=
  days_before_month_aux y (Z.to_nat (m - 1)).

Definition toordinal (t : datetime) : Z :=
  days_before_year (year t) + days_before_month (year t) (month t) + day t.

Definition day_seconds (t : datetime) : Z :=
  hour t * 3600 + minute t * 60 + second t.

(** A [timedelta] is kept normalized: [0 <= seconds < 86400]. *)
Definition normalize (days seconds : Z) : timedelta :=
  {| td_days := days + seconds / 86400; td_seconds := seconds mod 86400 |}.

(** [a - b] *)
Definition sub (a b : datetime) : timedelta :=
  normalize (toordinal a - toordinal b) (day_seconds a - day_seconds b).

(** [abs(td)] *)
Definition abs (td : timedelta) : timedelta :=
  if td_days td <? 0 then normalize (- td_days td) (- td_seconds td)
  else td.

(** [td.total_seconds()] (of a delta without microseconds) *)
Definition total_seconds (td : timedelta) : Z :=
  td_days td * 86400 + td_seconds td.

End Datetime.

(** ** internetarchive.py: memento URLs *)

Definition not_LF (c : ascii) : bool := negb (Ascii.eqb c Py.LF).

(** One character matched by an unescaped dot of a pattern. *)
Definition any_char (s : string) : option string :=
  match s with
  | String c r => if not_LF c then Some r else None
  | EmptyString => None
  end.

(** [MEMENTO_URL_PATTERN.match(memento_url)]: the groups [(1, 2)].  The
    pattern is
    [^http(?:s)?://web.archive.org/web/(\d+)(?:id_)?/(.+)$], whose dots in
    the host name are not escaped. *)
Definition MEMENTO_URL_PATTERN_match (memento_url : string)
  : option (string * string) :=
  r ← Py.strip_prefix "http" memento_url;
  let r := default r (Py.strip_prefix "s" r) in
  r ← Py.strip_prefix "://web" r;
  r ← any_char r;
  r ← Py.strip_prefix "archive" r;
  r ← any_char r;
  r ← Py.strip_prefix "org/web/" r;
  let (timestamp, r) := Py.span Py.is_digit r in
  if decide (timestamp = EmptyString) then None else
  let r := default r (Py.strip_prefix "id_" r) in
  r ← Py.strip_prefix "/" r;
  let (url, r) := Py.span not_LF r in
  if decide (url = EmptyString) then None else
  _ ← Py.dollar r;
  Some (timestamp, url).

Definition DQ : string := String (ascii_of_nat 34) EmptyString.

Definition split_memento_url (memento_url : string)
  : exn + (string * string) :=
  match MEMENTO_URL_PATTERN_match memento_url with
  | None => inl (ValueError (DQ +:+ memento_url +:+ DQ +:+ " is not a memento URL"))
  | Some (g1, g2) => inr (g2, g1)
  end.

Module Unquote.

Definition hex_value (c : ascii) : option nat :=
  if Py.is_digit c then Some (Py.code c - 48)%nat
  else if Py.between 97 102 c then Some (Py.code c - 87)%nat
  else if Py.between 65 70 c then Some (Py.code c - 55)%nat
  else None.

(** [urllib.parse.unquote]: every [%XX] with two hexadecimal digits
    becomes the byte it names; the bytes are read back as UTF-8, which
    on this model's strings is the identity. *)
Fixpoint unquote (s : string) : string :=
  match s with
  | EmptyString => EmptyString
  | String c r =>
      match c, r with
      | "%"%char, String a (String b r') =>
          match hex_value a, hex_value b with
          | Some x, Some y => String (ascii_of_nat (16 * x + y)) (unquote r')
          | _, _ => String c (unquote r)
          end
      | _, _ => String c (unquote r)
      end
  end.

End Unquote.

Definition clean_memento_url_component (url : string) : string :=
  let lower_url := Py.lower url in
  if Py.startswith "http%3a" lower_url || Py.startswith "https%3a" lower_url
  then Unquote.unquote url
  else url.

Definition memento_url_data (memento_url : string)
  : exn + (string * datetime) :=
  match split_memento_url memento_url with
  | inl e => inl e
  | inr (raw_url, timestamp) =>
      let url := clean_memento_url_component raw_url in
      match Datetime.strptime timestamp with
      | None => inl (ValueError ("time data '" +:+ timestamp
                                 +:+ "' does not match format '%Y%m%d%H%M%S'"))
      | Some date => inr (url, date)
      end
  end.

Definition original_url_for_memento (memento_url : string) : exn + string :=
  match split_memento_url memento_url with
  | inl e => inl e
  | inr (raw_url, _) => inr (clean_memento_url_component raw_url)
  end.

(** ** HTTP responses *)

(** What the code reads of a [requests.Response].  [headers] is the
    case-insensitive dict of the response, one entry per header name;
    [next] is the URL of [response.next], the prepared request of the
    onward redirect, when there is one. *)
Record response := {
  resp_url : string;
  status_code : Z;
  headers : list (string * string);
  next : option string;
  content : string;
  encoding : option string
}.

Module Headers.

Definition same_name (a b : string) : bool :=
  String.eqb (Py.lower a) (Py.lower b).

(** [headers.get(name)] *)
Definition get (name : string) (hs : list (string * string))
  : option string :=
  match List.find (fun kv => same_name (fst kv) name) hs with
  | Some kv => Some (snd kv)
  | None => None
  end.

(** [name in headers] *)
Definition mem (name : string) (hs : list (string * string)) : bool :=
  match get name hs with Some _ => true | None => false end.

End Headers.

(** [response.ok]: [raise_for_status] does not raise. *)
Definition ok (r : response) : bool :=
  negb ((400 <=? status_code r)%Z && (status_code r <? 600)%Z).

(** ** internetarchive.py: [WaybackSession] *)

Inductive timeout_value :=
  | TimeoutSeconds (seconds : Q)
  | TimeoutPair (connect read : Q).

Record WaybackSession := {
  retries : Z;
  backoff : Z;
  timeout : option timeout_value
}.

Definition retryable_statuses : list Z :=
  [413; 421; 429; 500; 502; 503; 504; 599]%Z.

(** [isinstance(error, WaybackSession.retryable_errors)] *)
Definition is_retryable_error (e : transport_error) : bool :=
  match error_cls e with
  | ConnectTimeoutError | MaxRetryError | ReadTimeoutError
  | ProxyError | RetryError | Timeout | ConnectTimeout | ReadTimeout => true
  | ConnectionError | SSLError | OtherError => false
  end.

(** [isinstance(error, ConnectionError)] *)
Definition is_connection_error (e : transport_error) : bool :=
  match error_cls e with
  | ConnectionError | ProxyError | SSLError | ConnectTimeout => true
  | _ => false
  end.

(** [isinstance(error, WaybackSession.handleable_errors)] *)
Definition is_handleable_error (e : transport_error) : bool :=
  is_connection_error e || is_retryable_error e.

Definition should_retry (r : response) : bool :=
  if Headers.mem "Memento-Datetime" (headers r) then false
  else bool_decide (status_code r ∈ retryable_statuses).

Definition should_retry_error (e : transport_error) : bool :=
  if is_retryable_error e then true
  else if is_connection_error e then
    Py.contains "NewConnectionError" (error_text e)
    || Py.contains "Max retries" (error_text e)
  else false.

(** What a run of [send] does to the outside: calls to the underlying
    [requests.Session.send], with the timeout they are given, and calls to
    [time.sleep]. *)
Inductive event :=
  | Attempt (timeout : option timeout_value)
  | Sleep (seconds : Z).

(** The transport: [transport n] is the outcome of the call to the
    underlying [send] made while the counter [retries] is [n]. *)
Definition transport := nat -> transport_error + response.

(** The [while True] loop of [send]; [fuel] bounds its iterations. *)
Fixpoint send_loop (fuel : nat) (self : WaybackSession) (t : transport)
    (kw_timeout : option timeout_value) (total_time maximum retries : Z)
  : option ((exn + response) * list event) :=
  match fuel with
  | O => None
  | S fuel' =>
      let again :=
        let sleeps :=
          if (retries >? 0)%Z
          then [Sleep (backoff self * 2 ^ (retries - 1))%Z]
          else [] in
        match send_loop fuel' self t kw_timeout total_time maximum
                        (retries + 1)%Z with
        | Some (r, tr) => Some (r, Attempt kw_timeout :: sleeps ++ tr)
        | None => None
        end in
      match t (Z.to_nat retries) with
      | inr result =>
          if (retries >=? maximum)%Z || negb (should_retry result)
          then Some (inr result, [Attempt kw_timeout])
          else again
      | inl error =>
          if is_handleable_error error then
            if (retries >=? maximum)%Z
            then Some (inl (WaybackRetryError retries total_time error),
                       [Attempt kw_timeout])
            else if negb (should_retry_error error)
            then Some (inl (Propagated error), [Attempt kw_timeout])
            else again
          else Some (inl (Propagated error), [Attempt kw_timeout])
      end
  end.

(** The first statement of [send]: the session's timeout is used when
    there is one and the caller gives none. *)
Definition apply_session_timeout (self : WaybackSession)
    (kw_timeout : option timeout_value) : option timeout_value :=
  match timeout self, kw_timeout with
  | Some x, None => Some x
  | _, _ => kw_timeout
  end.

(** [WaybackSession.send(request, **kwargs)]; [kw_timeout] is the
    [timeout] keyword when the caller gives one. *)
Definition send (self : WaybackSession) (t : transport)
    (kw_timeout : option timeout_value)
  : option ((exn + response) * list event) :=
  let kw_timeout := apply_session_timeout self kw_timeout in
  let total_time := 0%Z in
  let maximum := retries self in
  send_loop (S (Z.to_nat maximum)) self t kw_timeout total_time maximum 0%Z.

Definition attempts (tr : list event) : nat :=
  List.length (List.filter (fun e => match e with Attempt _ => true | _ => false end) tr).

Definition slept (tr : list event) : Z :=
  fold_right (fun e acc => match e with Sleep n => (n + acc)%Z | _ => acc end)
             0%Z tr.

(** ** Python values and ordered dicts *)

Inductive pyval :=
  | PNone
  | PStr (s : string)
  | PDatetime (d : datetime)
  | PInt (n : Z)
  | PBool (b : bool).

Module Dict.

(** A dict in insertion order. *)
Definition t (V : Type) := list (string * V).

Fixpoint get {V} (k : string) (d : t V) : option V :=
  match d with
  | [] => None
  | (k', v) :: d' => if String.eqb k' k then Some v else get k d'
  end.

(** [d[k] = v] *)
Fixpoint set {V} (k : string) (v : V) (d : t V) : t V :=
  match d with
  | [] => [(k, v)]
  | (k', v') :: d' =>
      if String.eqb k' k then (k', v) :: d' else (k', v') :: set k v d'
  end.

(** [d.update(e)] *)
Definition update {V} (d e : t V) : t V :=
  fold_left (fun acc kv => set (fst kv) (snd kv) acc) e d.

End Dict.

Module Format.

Definition str_int (n : Z) : string :=
  NilZero.string_of_int (Z.to_int n).

Definition digit (n : Z) : ascii := ascii_of_nat (48 + Z.to_nat (n mod 10)).

Definition pad2 (n : Z) : string :=
  String (digit (n / 10)) (String (digit n) EmptyString).

Definition pad4 (n : Z) : string :=
  String (digit (n / 1000)) (String (digit (n / 100))
    (String (digit (n / 10)) (String (digit n) EmptyString))).

(** [value.strftime(URL_DATE_FORMAT)] *)
Definition strftime (d : datetime) : string :=
  pad4 (year d) +:+ pad2 (month d) +:+ pad2 (day d)
  +:+ pad2 (hour d) +:+ pad2 (minute d) +:+ pad2 (second d).

(** [dt.isoformat()] *)
Definition isoformat (d : datetime) : string :=
  pad4 (year d) +:+ "-" +:+ pad2 (month d) +:+ "-" +:+ pad2 (day d)
  +:+ "T" +:+ pad2 (hour d) +:+ ":" +:+ pad2 (minute d)
  +:+ ":" +:+ pad2 (second d).

(** [str(value)] *)
Definition str (v : pyval) : string :=
  match v with
  | PNone => "None"
  | PStr s => s
  | PDatetime d =>
      pad4 (year d) +:+ "-" +:+ pad2 (month d) +:+ "-" +:+ pad2 (day d)
      +:+ " " +:+ pad2 (hour d) +:+ ":" +:+ pad2 (minute d)
      +:+ ":" +:+ pad2 (second d)
  | PInt n => str_int n
  | PBool true => "True"
  | PBool false => "False"
  end.

End Format.

(** ** internetarchive.py: [WaybackClient.search], the query *)

(** The arguments of [search]; [kwargs] holds the keywords that are not
    named parameters. *)
Record search_args := {
  url : pyval;
  matchType : pyval;
  limit : pyval;
  offset : pyval;
  fastLatest : pyval;
  gzip : pyval;
  from_date : pyval;
  to_date : pyval;
  filter_field : pyval;
  collapse : pyval;
  showResumeKey : pyval;
  resumeKey : pyval;
  page : pyval;
  pageSize : pyval;
  resolveRevisits : pyval;
  skip_malformed_results : pyval;
  kwargs : Dict.t pyval
}.

(** [search(url)] with every other parameter at its default. *)
Definition search_defaults (u : string) : search_args := {|
  url := PStr u; matchType := PNone; limit := PNone; offset := PNone;
  fastLatest := PNone; gzip := PNone; from_date := PNone; to_date := PNone;
  filter_field := PNone; collapse := PNone; showResumeKey := PBool true;
  resumeKey := PNone; page := PNone; pageSize := PNone;
  resolveRevisits := PBool true; skip_malformed_results := PBool true;
  kwargs := []
|}.

Definition search_query (a : search_args) : Dict.t pyval :=
  let query :=
    [("url", url a); ("matchType", matchType a); ("limit", limit a);
     ("offset", offset a); ("gzip", gzip a); ("from", from_date a);
     ("to", to_date a); ("filter", filter_field a);
     ("fastLatest", fastLatest a); ("collapse", collapse a);
     ("showResumeKey", showResumeKey a); ("resumeKey", resumeKey a);
     ("resolveRevisits", resolveRevisits a); ("page", page a);
     ("pageSize", page a)] in
  Dict.update query (kwargs a).

Definition unsupported : list string :=
  ["output"; "fl"; "showDupeCount"; "showSkipCount"; "lastSkipTimestamp";
   "showNumPages"; "showPagedIndex"].

Fixpoint search_final_query_loop (items : Dict.t pyval)
    (final_query : Dict.t string) : exn + Dict.t string :=
  match items with
  | [] => inr final_query
  | (key, value) :: items' =>
      if bool_decide (key ∈ unsupported)
      then inl (ValueError ("The " +:+ key +:+ " argument is not supported"))
      else
        search_final_query_loop items'
          match value with
          | PNone => final_query
          | PStr s => Dict.set key s final_query
          | PDatetime d => Dict.set key (Format.strftime d) final_query
          | _ => Dict.set key (Py.lower (Format.str value)) final_query
          end
  end.

(** The [params] that [search] sends to [CDX_SEARCH_URL]. *)
Definition search_final_query (a : search_args) : exn + Dict.t string :=
  search_final_query_loop (search_query a) [].

(** ** internetarchive.py: [WaybackClient.get_memento] *)

(** The session as [get_memento] sees it: what a GET of a URL without
    automatic redirects comes back with, an exception or a response. *)
Definition requester := string -> exn + response.

(** The local variables of [get_memento] that the loop updates. *)
Record memento_state := {
  history : list response;
  urls : gset string;
  previous_was_memento : bool
}.

Definition initial_memento_state : memento_state :=
  {| history := []; urls := ∅; previous_was_memento := false |}.

(** The outcome of one pass through the body of the loop. *)
Inductive step_result :=
  | Break (st : memento_state)
  | Follow (st : memento_state) (next_url : string)
  | Raise (e : exn).

(** The test [playable] of a response that is not a memento. *)
Definition playable (redirect_target_window : Z) (original_date : datetime)
    (st : memento_state) (r : response) : exn + bool :=
  match previous_was_memento st, next r with
  | true, Some next_url =>
      match original_url_for_memento (resp_url r) with
      | inl e => inl e
      | inr current_url =>
          match memento_url_data next_url with
          | inl e => inl e
          | inr (target_url, target_date) =>
              inr (bool_decide (Py.casefold current_url = Py.casefold target_url)
                   && (td_seconds (Datetime.abs
                                     (Datetime.sub target_date original_date))
                       <=? redirect_target_window)%Z)
          end
      end
  | _, _ => inr false
  end.

(** What [get_memento] raises for a response that is neither a memento
    nor playable. *)
Definition not_playable_error (url : string) (r : response) : exn :=
  match Headers.get "X-Archive-Wayback-Runtime-Error" (headers r) with
  | Some (String c m) =>
      MementoPlaybackError
        ("Memento at " +:+ url +:+ " could not be played: " +:+ String c m)
  | _ =>
      if ok r
      then MementoPlaybackError ("Memento at " +:+ url +:+ " could not be played")
      else HTTPError (status_code r)
  end.

(** The second half of the body: [if response.next: ... else: break]. *)
Definition follow_next (url : string) (is_memento : bool)
    (st : memento_state) (r : response) : step_result :=
  match next r with
  | Some next_url =>
      let urls' := urls st ∪ {[ resp_url r ]} in
      if bool_decide (next_url ∈ urls')
      then Raise (MementoPlaybackError ("Memento at " +:+ url +:+ " is circular"))
      else Follow {| history := history st ++ [r];
                     urls := urls';
                     previous_was_memento := is_memento |} next_url
  | None => Break st
  end.

(** One pass through the body of [while True]. *)
Definition get_memento_step (url : string) (redirect_target_window : Z)
    (original_date : datetime) (st : memento_state) (r : response)
  : step_result :=
  let is_memento := Headers.mem "Memento-Datetime" (headers r) in
  if is_memento then follow_next url is_memento st r
  else
    match playable redirect_target_window original_date st r with
    | inl e => Raise e
    | inr false => Raise (not_playable_error url r)
    | inr true => follow_next url is_memento st r
    end.

Fixpoint get_memento_loop (fuel : nat) (session : requester) (url : string)
    (redirect_target_window : Z) (original_date : datetime)
    (st : memento_state) (r : response)
  : option (exn + (response * list response)) :=
  match fuel with
  | O => None
  | S fuel' =>
      match get_memento_step url redirect_target_window original_date st r with
      | Raise e => Some (inl e)
      | Break st' => Some (inr (r, history st'))
      | Follow st' next_url =>
          match session next_url with
          | inl e => Some (inl e)
          | inr r' =>
              get_memento_loop fuel' session url redirect_target_window
                               original_date st' r'
          end
      end
  end.

(** [get_memento(url, redirect_target_window)]: the final response and its
    [history].  [None] when [fuel] passes through the loop do not reach the
    end of the redirect chain. *)
Definition get_memento (fuel : nat) (session : requester) (url : string)
    (redirect_target_window : Z)
  : option (exn + (response * list response)) :=
  match memento_url_data url with
  | inl e => Some (inl e)
  | inr (orginal_url, original_date) =>
      match session url with
      | inl e => Some (inl e)
      | inr r =>
          get_memento_loop fuel session url redirect_target_window
                           original_date initial_memento_state r
      end
  end.

Definition default_redirect_target_window : Z := 12 * 60 * 60.

(** ** internetarchive.py: versions *)

Record source_metadata := {
  sm_status_code : Z;
  sm_mime_type : string;
  sm_encoding : option string;
  sm_headers : list (string * string);
  sm_view_url : option string;
  sm_error_code : option Z;
  sm_redirected_url : option string;
  sm_redirects : option (list string)
}.

Record version := {
  page_url : string;
  page_maintainers : option (list string);
  page_tags : option (list string);
  title : string;
  capture_time : string;
  uri : string;
  version_hash : string;
  source_type : string;
  version_source_metadata : source_metadata
}.

Definition format_version (url : string) (dt : datetime) (uri : string)
    (version_hash title : string) (status : Z) (mime_type : string)
    (encoding : option string) (maintainers tags : option (list string))
    (headers : list (string * string)) (view_url : option string)
    (redirected_url : option string) (redirects : option (list string))
  : version :=
  let truthy := match redirected_url with
                | Some (String _ _) => true
                | _ => false
                end in
  let metadata := {|
    sm_status_code := status;
    sm_mime_type := mime_type;
    sm_encoding := encoding;
    sm_headers := headers;
    sm_view_url := view_url;
    sm_error_code := if (status >=? 400)%Z then Some status else None;
    sm_redirected_url := if truthy then redirected_url else None;
    sm_redirects := if truthy then redirects else None
  |} in
  {| page_url := url;
     page_maintainers := maintainers;
     page_tags := tags;
     title := title;
     capture_time := Format.isoformat dt;
     uri := uri;
     version_hash := version_hash;
     source_type := "internet_archive";
     version_source_metadata := metadata |}.

(** The two functions of [web_monitoring.utils] that building a version
    calls; the module is not part of the sources modelled here. *)
Record utils := {
  hash_content : string -> string;
  extract_title : string -> string
}.

(** [[f(x) for x in xs]] for a fallible [f]: the first exception wins. *)
Fixpoint try_map {A B} (f : A -> exn + B) (xs : list A) : exn + list B :=
  match xs with
  | [] => inr []
  | x :: xs' =>
      match f x with
      | inl e => inl e
      | inr y =>
          match try_map f xs' with
          | inl e => inl e
          | inr ys => inr (y :: ys)
          end
      end
  end.

Definition original_headers (hs : list (string * string))
  : list (string * string) :=
  let prefix := "X-Archive-Orig-" in
  omap (fun kv => match Py.strip_prefix prefix (fst kv) with
                  | Some k => Some (k, snd kv)
                  | None => None
                  end) hs.

Definition timestamped_uri_to_version (U : utils) (fuel : nat)
    (session : requester) (dt : datetime) (uri : string) (url : string)
    (maintainers tags : option (list string)) (view_url : option string)
  : option (exn + version) :=
  match get_memento fuel session uri default_redirect_target_window with
  | None => None
  | Some (inl e) => Some (inl e)
  | Some (inr (res, res_history)) =>
      let version_hash := hash_content U (content res) in
      let title := extract_title U (content res) in
      match Headers.get "content-type" (headers res) with
      | None => Some (inl (KeyError "content-type"))
      | Some content_type =>
          let mime_type := Py.split_first ";" content_type in
          let built redirected_url redirects :=
            format_version url dt uri version_hash title (status_code res)
                           mime_type (encoding res) maintainers tags
                           (original_headers (headers res)) view_url
                           redirected_url redirects in
          if bool_decide (resp_url res ≠ uri) then
            match original_url_for_memento (resp_url res) with
            | inl e => Some (inl e)
            | inr redirected_url =>
                match try_map (fun r => original_url_for_memento (resp_url r))
                              res_history with
                | inl e => Some (inl e)
                | inr redirects =>
                    Some (inr (built (Some redirected_url)
                                     (Some (redirects ++ [redirected_url])%list)))
                end
            end
          else Some (inr (built None None))
      end
  end.

(** ** cli.py: the worker and its summary *)

Record CdxRecord := {
  cdx_key : string;
  cdx_timestamp : string;
  cdx_url : string;
  cdx_mime_type : string;
  cdx_status_code : string;
  cdx_digest : string;
  cdx_length : string;
  cdx_date : datetime;
  cdx_raw_url : string;
  cdx_view_url : string
}.

(** The dict of [worker_summary()]. *)
Record summary := {
  total : Z;
  success : Z;
  playback : Z;
  missing : Z;
  unknown : Z
}.

Definition worker_summary : summary :=
  {| total := 0; success := 0; playback := 0; missing := 0; unknown := 0 |}.

(** What a worker has changed so far: its summary, the versions it has
    put on [results_queue], the records it has put on [failure_queue]. *)
Record worker_state := {
  w_summary : summary;
  w_results : list version;
  w_failures : list CdxRecord
}.

Definition count_total (s : summary) : summary :=
  {| total := total s + 1; success := success s; playback := playback s;
     missing := missing s; unknown := unknown s |}.
Definition count_success (s : summary) : summary :=
  {| total := total s; success := success s + 1; playback := playback s;
     missing := missing s; unknown := unknown s |}.
Definition count_playback (s : summary) : summary :=
  {| total := total s; success := success s; playback := playback s + 1;
     missing := missing s; unknown := unknown s |}.
Definition count_missing (s : summary) : summary :=
  {| total := total s; success := success s; playback := playback s;
     missing := missing s + 1; unknown := unknown s |}.
Definition count_unknown (s : summary) : summary :=
  {| total := total s; success := success s; playback := playback s;
     missing := missing s; unknown := unknown s + 1 |}.

(** The [try ... except] of the worker's loop, given what
    [timestamped_uri_to_version] did for [record].  [has_failure_queue]
    is the truth of [failure_queue]. *)
Definition worker_handle (has_failure_queue go_slow_and_try_hard : bool)
    (record : CdxRecord) (outcome : exn + version) (w : worker_state)
  : worker_state :=
  let s := w_summary w in
  let requeue :=
    if has_failure_queue && negb go_slow_and_try_hard
    then (w_failures w ++ [record])%list else w_failures w in
  match outcome with
  | inr v =>
      {| w_summary := count_success s; w_results := w_results w ++ [v];
         w_failures := w_failures w |}
  | inl (MementoPlaybackError _) =>
      {| w_summary := count_playback s; w_results := w_results w;
         w_failures := w_failures w |}
  | inl (HTTPError status) =>
      if (status =? 404)%Z
      then {| w_summary := count_missing s; w_results := w_results w;
              w_failures := w_failures w |}
      else {| w_summary := count_unknown s; w_results := w_results w;
              w_failures := requeue |}
  | inl _ =>
      {| w_summary := count_unknown s; w_results := w_results w;
         w_failures := requeue |}
  end.

(** The sessions a worker makes. *)
Definition worker_session (go_slow_and_try_hard : bool) : WaybackSession :=
  if go_slow_and_try_hard
  then {| retries := 8; backoff := 4; timeout := Some (TimeoutSeconds 60.5) |}
  else {| retries := 4; backoff := 2; timeout := Some (TimeoutPair 30.5 2) |}.

(** [load_wayback_records_worker]: [records] are the records this worker
    draws from the shared iterator, in order; [wayback s] is the Wayback
    Machine as seen through a session configured as [s].  [None] when the
    fuel given to a fetch does not reach the end of its redirect chain. *)
Fixpoint load_wayback_records_loop (U : utils) (fuel : nat)
    (session : requester) (maintainers tags : option (list string))
    (has_failure_queue go_slow_and_try_hard : bool)
    (records : list CdxRecord) (w : worker_state) : option worker_state :=
  match records with
  | [] => Some w
  | record :: records' =>
      let w := {| w_summary := count_total (w_summary w);
                  w_results := w_results w; w_failures := w_failures w |} in
      match timestamped_uri_to_version U fuel session (cdx_date record)
              (cdx_raw_url record) (cdx_url record) maintainers tags
              (Some (cdx_view_url record)) with
      | None => None
      | Some outcome =>
          load_wayback_records_loop U fuel session maintainers tags
            has_failure_queue go_slow_and_try_hard records'
            (worker_handle has_failure_queue go_slow_and_try_hard
                           record outcome w)
      end
  end.

Definition load_wayback_records_worker (U : utils) (fuel : nat)
    (wayback : WaybackSession -> requester) (records : list CdxRecord)
    (results_queue : list version) (maintainers tags : option (list string))
    (failure_queue : option (list CdxRecord)) (go_slow_and_try_hard : bool)
  : option worker_state :=
  let summary := worker_summary in
  let session := worker_session go_slow_and_try_hard in
  load_wayback_records_loop U fuel (wayback session) maintainers tags
    (bool_decide (failure_queue ≠ None)) go_slow_and_try_hard records
    {| w_summary := summary; w_results := results_queue;
       w_failures := default [] failure_queue |}.

(** ** cli.py: [merge_worker_summaries] *)

(** The merged dict: the five counters and the four [_pct] entries that
    [merged.update] adds. *)
Record merged_summary := {
  counters : summary;
  success_pct : Q;
  playback_pct : Q;
  missing_pct : Q;
  unknown_pct : Q
}.

Definition add_summary (merged s : summary) : summary :=
  {| total := total merged + total s;
     success := success merged + success s;
     playback := playback merged + playback s;
     missing := missing merged + missing s;
     unknown := unknown merged + unknown s |}.

Definition merge_worker_summaries (summaries : list summary)
  : merged_summary :=
  let merged := fold_left add_summary summaries worker_summary in
  let pct (v : Z) : Q :=
    if (total merged =? 0)%Z then 0%Q
    else (inject_Z v / inject_Z (total merged))%Q in
  {| counters := merged;
     success_pct := pct (success merged);
     playback_pct := pct (playback merged);
     missing_pct := pct (missing merged);
     unknown_pct := pct (unknown merged) |}.

(** ** cli.py: [_filter_unchanged_versions] *)

(** The generator, run to the end of [versions]; [last_hashes] is its
    dict. *)
Fixpoint filter_unchanged_loop (last_hashes : gmap string string)
    (versions : list version) : list version :=
  match versions with
  | [] => []
  | version :: versions' =>
      if bool_decide (last_hashes !! page_url version
                      ≠ Some (version_hash version))
      then version ::
           filter_unchanged_loop
             (<[page_url version := version_hash version]> last_hashes)
             versions'
      else filter_unchanged_loop last_hashes versions'
  end.

Definition filter_unchanged_versions (versions : list version)
  : list version :=
  filter_unchanged_loop ∅ versions.

(** The versions that [import_ia_urls] hands to the uploader, given the
    versions that come off [versions_queue]. *)
Definition uploader_versions (skip_unchanged : string)
    (versions : list version) : list version :=
  if String.eqb skip_unchanged "resolved-response"
  then filter_unchanged_versions versions
  else versions.

(** ** Notions used in the statements *)

(** The sum of one counter over a list of summaries. *)
Definition sum_of (f : summary -> Z) (l : list summary) : Z :=
  fold_right (fun s acc => f s + acc)%Z 0%Z l.

(** The hash of the last version of [page] in [out], if any. *)
Definition last_yielded (page : string) (out : list version) : option string :=
  fold_left (fun acc v => if bool_decide (page_url v = page)
                          then Some (version_hash v) else acc) out None.

(** The versions of [page] among [out], in order. *)
Definition versions_of_page (page : string) (out : list version)
  : list version :=
  List.filter (fun v => bool_decide (page_url v = page)) out.

(** [chain] are the responses that follow [r] in a chain of redirects:
    each response names a next URL, and the session answers that URL with
    the next response of the chain. *)
Fixpoint redirect_chain (session : requester) (r : response)
    (chain : list response) : Prop :=
  match chain with
  | [] => True
  | r' :: chain' =>
      exists next_url,
        next r = Some next_url /\ session next_url = inr r'
        /\ redirect_chain session r' chain'
  end.

(** A response from which [get_memento] goes on: it is a memento, or it is
    accepted as the target of a memento's redirect.  [previous] is whether
    the response before it was a memento. *)
Definition accepted (redirect_target_window : Z) (original_date : datetime)
    (previous : bool) (r : response) : bool :=
  Headers.mem "Memento-Datetime" (headers r)
  || match playable redirect_target_window original_date
             {| history := []; urls := ∅; previous_was_memento := previous |}
             r with
     | inr true => true
     | _ => false
     end.

Fixpoint accepted_chain (redirect_target_window : Z) (original_date : datetime)
    (previous : bool) (chain : list response) : bool :=
  match chain with
  | [] => true
  | r :: chain' =>
      accepted redirect_target_window original_date previous r
      && accepted_chain redirect_target_window original_date
           (Headers.mem "Memento-Datetime" (headers r)) chain'
  end.

(** The seconds slept at the head of a trace, before its first attempt. *)
Fixpoint leading_sleeps (tr : list event) : list Z :=
  match tr with
  | Sleep n :: tr' => n :: leading_sleeps tr'
  | _ => []
  end.

(** The seconds slept between attempt [k] and attempt [k + 1] of a trace.
    Attempts are numbered as the counter [retries] of [send] numbers them,
    from 0: attempt 0 is the first call and attempt 1 the first retry. *)
Fixpoint sleeps_after (k : nat) (tr : list event) : list Z :=
  match tr with
  | [] => []
  | Attempt _ :: tr' =>
      match k with
      | O => leading_sleeps tr'
      | S k' => sleeps_after k' tr'
      end
  | Sleep _ :: tr' => sleeps_after k tr'
  end.

(** The trace of [n + 1] attempts numbered [k .. k + n], each retried. *)
Fixpoint retry_trace (kw : option timeout_value) (b : Z) (k n : nat)
  : list event :=
  match n with
  | O => [Attempt kw]
  | S n' =>
      Attempt kw ::
      (if (k =? 0)%nat then [] else [Sleep (b * 2 ^ (Z.of_nat k - 1))%Z])
      ++ retry_trace kw b (S k) n'
  end.

(** The two stages of [rough_url_key]: cutting the query and the
    fragment off the lowered key, then removing an index page and one
    final slash. *)
Definition cut_query_fragment (s : string) : string :=
  Py.split_first "#" (Py.split_first "?" s).

Definition strip_index_slash (s : string) : string :=
  let s := INDEX_PAGE_EXPRESSION_sub s in
  if Py.endswith_char "/" s then Py.drop_last s else s.

(** The characters a rough key is made of. *)
Definition rough_char (c : ascii) : bool :=
  negb (Py.is_upper c) && negb (Ascii.eqb c "?") && negb (Ascii.eqb c "#").

(** Sample inputs. *)
Definition sample_response (status : Z) (hs : list (string * string))
  : response :=
  {| resp_url := "http://web.archive.org/web/20200101000000id_/http://a/";
     status_code := status; headers := hs; next := None;
     content := EmptyString; encoding := None |}.

Definition always_503 : transport := fun _ => inr (sample_response 503 []).

Definition timeout_error : transport_error :=
  {| error_cls := Timeout; error_text := "timed out" |}.

Definition always_timeout : transport := fun _ => inl timeout_error.

(** A Wayback Machine that answers a request for memento [A] with a
    memento redirect to [B], and one for [B] with a memento redirect back
    to [A]. *)
Definition memento_A : string :=
  "http://web.archive.org/web/20200101000000id_/http://a/".
Definition memento_B : string :=
  "http://web.archive.org/web/20200101000001id_/http://b/".

Definition redirect_response (from : string) (memento : bool) (to : string)
  : response :=
  {| resp_url := from; status_code := 301;
     headers := (if memento
                 then [("Memento-Datetime", "Wed, 01 Jan 2020 00:00:00 GMT")]
                 else []) ++ [("Location", to)];
     next := Some to; content := EmptyString; encoding := None |}.

Definition circular_session : requester := fun u =>
  if String.eqb u memento_A then inr (redirect_response memento_A true memento_B)
  else if String.eqb u memento_B
       then inr (redirect_response memento_B true memento_A)
       else inl (HTTPError 404).

Definition record_A : CdxRecord :=
  {| cdx_key := "a)/"; cdx_timestamp := "20200101000000";
     cdx_url := "http://a/"; cdx_mime_type := "text/html";
     cdx_status_code := "301"; cdx_digest := "ABCDE1234"; cdx_length := "123";
     cdx_date := {| year := 2020; month := 1; day := 1;
                    hour := 0; minute := 0; second := 0 |};
     cdx_raw_url := memento_A;
     cdx_view_url := "http://web.archive.org/web/20200101000000/http://a/" |}.

Definition sample_utils : utils :=
  {| hash_content := fun body => body; extract_title := fun _ => EmptyString |}.

(** A Wayback Machine where the memento of [http://a/] of 2020-01-01
    redirects to [http://a/x], which has no capture of that second and
    sends on to its capture of 2021-01-01, 366 days later. *)
Definition memento_X_2020 : string :=
  "http://web.archive.org/web/20200101000000id_/http://A/x".
Definition memento_X_2021 : string :=
  "http://web.archive.org/web/20210101000000id_/http://a/x".

Definition final_response : response :=
  {| resp_url := memento_X_2021; status_code := 200;
     headers := [("Memento-Datetime", "Fri, 01 Jan 2021 00:00:00 GMT");
                 ("Content-Type", "text/html; charset=utf-8")];
     next := None; content := "<title>x</title>"; encoding := Some "utf-8" |}.

Definition far_target_session : requester := fun u =>
  if String.eqb u memento_A
  then inr (redirect_response memento_A true memento_X_2020)
  else if String.eqb u memento_X_2020
       then inr (redirect_response memento_X_2020 false memento_X_2021)
       else if String.eqb u memento_X_2021 then inr final_response
            else inl (HTTPError 404).

(** The seconds between two instants. *)
Definition instant (t : datetime) : Z :=
  (Datetime.toordinal t * 86400 + Datetime.day_seconds t)%Z.

(** The dict of the generator after it has consumed [versions]. *)
Definition last_hashes_after (last_hashes : gmap string string)
    (versions : list version) : gmap string string :=
  fold_left (fun m v => if bool_decide (m !! page_url v ≠ Some (version_hash v))
                        then <[page_url v := version_hash v]> m else m)
            versions last_hashes.

Definition sample_version (page hash : string) : version :=
  format_version page
    {| year := 2020; month := 1; day := 1;
       hour := 0; minute := 0; second := 0 |}
    ("http://web.archive.org/web/20200101000000id_/" +:+ page)
    hash EmptyString 200 "text/html" None None None [] None None None.

(** A response with a retryable status and no [Memento-Datetime]. *)
Definition retryable_response (r : response) : Prop :=
  Headers.mem "Memento-Datetime" (headers r) = false
  /\ status_code r ∈ retryable_statuses.

(** ** Notions used in the further statements *)

(** The strings of ASCII characters: on these the string functions of
    this development are those of Python. *)
Definition ascii_only (s : string) : bool :=
  Py.all_chars (fun c => (Py.code c <? 128)%nat) s.

(** The sum of the four outcome counters of a summary. *)
Definition counted (s : summary) : Z :=
  (success s + playback s + missing s + unknown s)%Z.




(** An outcome of an attempt after which [send] tries again, if the
    retries are not used up. *)
Definition retried_outcome (o : transport_error + response) : Prop :=
  match o with
  | inr r => should_retry r = true
  | inl e => is_handleable_error e = true /\ should_retry_error e = true
  end.

(** A transport that refuses the connection twice, answers 503 once and
    then answers 200. *)
Definition refused_error : transport_error :=
  {| error_cls := ConnectionError;
     error_text := "HTTPConnectionPool: Max retries exceeded" |}.

Definition reset_error : transport_error :=
  {| error_cls := ConnectionError; error_text := "Connection reset by peer" |}.

Definition flaky_transport : transport := fun i =>
  match i with
  | 0%nat | 1%nat => inl refused_error
  | 2%nat => inr (sample_response 503 [])
  | _ => inr (sample_response 200 [])
  end.

(** [is_memento] of [get_memento]. *)
Definition is_memento (r : response) : bool :=
  Headers.mem "Memento-Datetime" (headers r).

(** No response of the chain that is not a memento comes first or comes
    after another that is not a memento; [previous] is whether the
    response before the chain was a memento. *)
Fixpoint no_two_misses (previous : bool) (chain : list response) : bool :=
  match chain with
  | [] => true
  | r :: chain' =>
      (previous || is_memento r) && no_two_misses (is_memento r) chain'
  end.

(** [ARCHIVE_RAW_URL_TEMPLATE.format(timestamp=..., url=...)] and
    [ARCHIVE_VIEW_URL_TEMPLATE.format(timestamp=..., url=...)] *)
Definition ARCHIVE_RAW_URL_TEMPLATE_format (timestamp url : string) : string :=
  "http://web.archive.org/web/" +:+ timestamp +:+ "id_/" +:+ url.
Definition ARCHIVE_VIEW_URL_TEMPLATE_format (timestamp url : string) : string :=
  "http://web.archive.org/web/" +:+ timestamp +:+ "/" +:+ url.

(** ** internetarchive.py: [is_malformed_url] *)

(** One attempt to match [DATA_URL_START], the pattern
    [data:[\w]+/[\w]+;base64], at the head of [s]. *)
Definition DATA_URL_START_here (s : string) : bool :=
  match Py.strip_prefix "data:" s with
  | None => false
  | Some r =>
      let (w1, r) := Py.span Py.is_word r in
      match w1, Py.strip_prefix "/" r with
      | String _ _, Some r =>
          let (w2, r) := Py.span Py.is_word r in
          match w2 with
          | String _ _ => Py.startswith ";base64" r
          | EmptyString => false
          end
      | _, _ => false
      end
  end.

(** [DATA_URL_START.search(s)]: a match anywhere in [s]. *)
Fixpoint DATA_URL_START_search (s : string) : bool :=
  DATA_URL_START_here s ||
  match s with
  | EmptyString => false
  | String _ s' => DATA_URL_START_search s'
  end.

Definition not_slash_at_colon (c : ascii) : bool :=
  negb (Ascii.eqb c "/" || Ascii.eqb c "@" || Ascii.eqb c ":").

(** [EMAILISH_URL.match(s)]: at the start [http], an optional [s] and
    [://]; then any number of [<]; then either [mailto:] or any number of
    characters other than [/], [@] and [:] followed by [@]. *)
Definition EMAILISH_URL_match (s : string) : bool :=
  match Py.strip_prefix "http" s with
  | None => false
  | Some r =>
      let r := default r (Py.strip_prefix "s" r) in
      match Py.strip_prefix "://" r with
      | None => false
      | Some r =>
          let (_, r) := Py.span (fun c => Ascii.eqb c "<") r in
          Py.startswith "mailto:" r
          || let (_, r') := Py.span not_slash_at_colon r in
             Py.startswith "@" r'
      end
  end.

Definition is_malformed_url (url : string) : bool :=
  if DATA_URL_START_search url then true
  else if Py.startswith "mailto:" url || EMAILISH_URL_match url then true
  else false.

(** ** internetarchive.py: [WaybackClient.search], the records *)

(** [text.split(sep)] for a one-character separator. *)
Fixpoint split_char (sep : ascii) (s : string) : list string :=
  match s with
  | EmptyString => [EmptyString]
  | String c s' =>
      if Ascii.eqb c sep then EmptyString :: split_char sep s'
      else match split_char sep s' with
           | field :: fields => String c field :: fields
           | [] => [String c EmptyString]
           end
  end.

(** The truth of a value. *)
Definition truthy (v : pyval) : bool :=
  match v with
  | PNone => false
  | PStr s => negb (String.eqb s EmptyString)
  | PDatetime _ => true
  | PInt n => negb (n =? 0)%Z
  | PBool b => b
  end.

(** The body of the loop of [search] from the [try] block on, for the
    [text] of a line that is not blank: an exception, a skipped result
    ([continue]) or the record to yield.  [text] is the line as
    [line.decode()] returns it; the decoding comes before the [try] block,
    and a line that is not UTF-8 ends [search] there with a
    [UnicodeDecodeError], which is not an [exn] of this development. *)
Definition parse_cdx_line (skip_malformed_results : bool) (text : string)
  : exn + option CdxRecord :=
  match split_char " " text with
  | [key; timestamp; url; mime_type; status_code; digest; length] =>
      match Datetime.strptime timestamp with
      | None => inl (UnexpectedResponseFormat text)
      | Some capture_time =>
          let clean_url := clean_url url in
          if skip_malformed_results && is_malformed_url clean_url
          then inr None
          else inr (Some {|
            cdx_key := key; cdx_timestamp := timestamp; cdx_url := clean_url;
            cdx_mime_type := mime_type; cdx_status_code := status_code;
            cdx_digest := digest; cdx_length := length;
            cdx_date := capture_time;
            cdx_raw_url := ARCHIVE_RAW_URL_TEMPLATE_format timestamp clean_url;
            cdx_view_url :=
              ARCHIVE_VIEW_URL_TEMPLATE_format timestamp clean_url |})
      end
  | _ => inl (UnexpectedResponseFormat text)
  end.

(** How a generator ends other than by returning: with an exception, or
    with the [RuntimeError] that Python makes of a [StopIteration] raised
    inside a generator. *)
Inductive gen_failure :=
  | GenRaise (e : exn)
  | GenRuntimeError.

(** A generator run to its end: what it yielded, and how it ended. *)
Definition generated (A R : Type) : Type := list A * (gen_failure + R).

(** The parameters of [search] by name, and [search] called with the
    entries of a dict [d] as its keywords: the named
    parameters take their values from [d] or their defaults, the other
    entries of [d] are the [kwargs]. *)
Definition search_parameters : list string :=
  ["url"; "matchType"; "limit"; "offset"; "fastLatest"; "gzip"; "from_date";
   "to_date"; "filter_field"; "collapse"; "showResumeKey"; "resumeKey";
   "page"; "pageSize"; "resolveRevisits"; "skip_malformed_results"].

Definition search_args_of (d : Dict.t pyval) : search_args :=
  let arg name default_value := default default_value (Dict.get name d) in
  {| url := arg "url" PNone;
     matchType := arg "matchType" PNone;
     limit := arg "limit" PNone;
     offset := arg "offset" PNone;
     fastLatest := arg "fastLatest" PNone;
     gzip := arg "gzip" PNone;
     from_date := arg "from_date" PNone;
     to_date := arg "to_date" PNone;
     filter_field := arg "filter_field" PNone;
     collapse := arg "collapse" PNone;
     showResumeKey := arg "showResumeKey" (PBool true);
     resumeKey := arg "resumeKey" PNone;
     page := arg "page" PNone;
     pageSize := arg "pageSize" PNone;
     resolveRevisits := arg "resolveRevisits" (PBool true);
     skip_malformed_results := arg "skip_malformed_results" (PBool true);
     kwargs := List.filter
                 (fun kv => negb (bool_decide (fst kv ∈ search_parameters))) d
  |}.

(** The arguments of the call for the next page:
    [next_args = query.copy(); next_args['resumeKey'] = key]. *)
Definition next_args (a : search_args) (key : string) : search_args :=
  search_args_of (Dict.set "resumeKey" (PStr key) (search_query a)).

(** The CDX server as [search] sees it: the lines of the response to a
    query, each decoded to text, or the exception of the request.  A
    response with a line that does not decode is outside this type. *)
Definition cdx_server := Dict.t string -> exn + list string.

(** The loop over the lines of one response; [next_page key] is the
    generator of the call for the page after the resume key [key]. *)
Fixpoint search_lines (next_page : string -> option (generated CdxRecord Z))
    (skip_malformed_results : bool) (lines : list string) (count : Z)
  : option (generated CdxRecord Z) :=
  match lines with
  | [] => Some ([], inr count)
  | text :: lines' =>
      if String.eqb text EmptyString then
        match lines' with
        | [] => Some ([], inl GenRuntimeError)
        | key :: _ =>
            match next_page key with
            | None => None
            | Some (records, inr n) => Some (records, inr (count + n)%Z)
            | Some (records, inl failure) => Some (records, inl failure)
            end
        end
      else
        match parse_cdx_line skip_malformed_results text with
        | inl e => Some ([], inl (GenRaise e))
        | inr None =>
            search_lines next_page skip_malformed_results lines' count
        | inr (Some data) =>
            match search_lines next_page skip_malformed_results lines'
                               (count + 1)%Z with
            | None => None
            | Some (records, ending) => Some (data :: records, ending)
            end
        end
  end.

(** [WaybackClient.search]; [None] when the resume keys lead through more
    than [fuel] pages. *)
Fixpoint search (fuel : nat) (cdx : cdx_server) (a : search_args)
  : option (generated CdxRecord Z) :=
  match fuel with
  | O => None
  | S fuel' =>
      match search_final_query a with
      | inl e => Some ([], inl (GenRaise e))
      | inr final_query =>
          match cdx final_query with
          | inl e => Some ([], inl (GenRaise e))
          | inr lines =>
              search_lines (fun key => search fuel' cdx (next_args a key))
                           (truthy (skip_malformed_results a)) lines 0%Z
          end
      end
  end.

(** ** internetarchive.py: [WaybackClient.list_versions] *)

(** The loop of [list_versions] over the records of the search. *)
Fixpoint list_versions_loop (skip_repeats : bool)
    (last_hashes : gmap string string) (records : list CdxRecord)
  : list CdxRecord * gmap string string :=
  match records with
  | [] => ([], last_hashes)
  | version :: records' =>
      if negb skip_repeats
         || bool_decide (last_hashes !! cdx_url version
                         ≠ Some (cdx_digest version))
      then
        let (yielded, final) :=
          list_versions_loop skip_repeats
            (<[cdx_url version := cdx_digest version]> last_hashes) records' in
        (version :: yielded, final)
      else list_versions_loop skip_repeats last_hashes records'
  end.

Definition list_versions_params (url from_date to_date : pyval)
    (cdx_params : option (Dict.t pyval)) : Dict.t pyval :=
  let params := [("collapse", PStr "digest")] in
  let params :=
    match cdx_params with
    | Some (kv :: more) => Dict.update params (kv :: more)
    | _ => params
    end in
  let params := Dict.set "url" url params in
  let params := Dict.set "from_date" from_date params in
  Dict.set "to_date" to_date params.

Definition list_versions (fuel : nat) (cdx : cdx_server)
    (url from_date to_date : pyval) (skip_repeats : bool)
    (cdx_params : option (Dict.t pyval))
  : option (generated CdxRecord unit) :=
  let params := list_versions_params url from_date to_date cdx_params in
  match search fuel cdx (search_args_of params) with
  | None => None
  | Some (records, ending) =>
      let (yielded, last_hashes) :=
        list_versions_loop skip_repeats ∅ records in
      match ending with
      | inl failure => Some (yielded, inl failure)
      | inr _ =>
          if bool_decide (last_hashes = ∅)
          then Some (yielded,
                     inl (GenRaise (ValueError
                       ("Internet archive does not have archived versions of "
                        +:+ Format.str url))))
          else Some (yielded, inr tt)
      end
  end.

(** The number of occurrences of a character. *)
Fixpoint count_char (c : ascii) (s : string) : nat :=
  match s with
  | EmptyString => O
  | String a s' => (if Ascii.eqb a c then 1 else 0) + count_char c s'
  end.

(** What [search] makes of the fields of a record it yields. *)
Definition synthesized (r : CdxRecord) : Prop :=
  Datetime.strptime (cdx_timestamp r) = Some (cdx_date r)
  /\ cdx_raw_url r
     = ARCHIVE_RAW_URL_TEMPLATE_format (cdx_timestamp r) (cdx_url r)
  /\ cdx_view_url r
     = ARCHIVE_VIEW_URL_TEMPLATE_format (cdx_timestamp r) (cdx_url r)
  /\ exists url, cdx_url r = clean_url url.

Definition digit_or_space (c : ascii) : bool :=
  Py.is_digit c || Ascii.eqb c " ".

Definition sample_line : string :=
  "org,example)/ 20200101000000 http://example.com:80/ text/html 200 ABCDE1234 123".

(** What the directives of the date format consume. *)
Definition consumed (s r : string) : Prop :=
  exists pre, s = pre +:+ r /\ Py.all_chars digit_or_space pre = true.

(** A CDX server with two pages: the first ends with a blank line and the
    resume key [RESUME_XYZ], which brings the second. *)
Definition two_page_server : cdx_server := fun final_query =>
  match Dict.get "resumeKey" final_query with
  | None =>
      inr ["org,example)/ 20200101000000 http://example.com:80/ text/html 200 ABCDE1234 123";
           EmptyString; "RESUME_XYZ"]
  | Some _ =>
      inr ["org,example)/ 20200101000100 http://example.com/ text/html 200 FGHIJ5678 124";
           "org,example)/ 20200101000200 http://example.com/ text/html 200 FGHIJ5678 124"]
  end.

(** How [str(value).lower()], [strftime] and [str] put a value on the
    wire. *)
Definition wire_value (v : pyval) : string :=
  match v with
  | PStr s => s
  | PDatetime d => Format.strftime d
  | _ => Py.lower (Format.str v)
  end.

(** ** cli.py: the known pages of the database *)

(** A page of web-monitoring-db, as far as [_get_db_page_url_info] reads
    it: [page['url']] and [page['url_key']], [None] for a null key. *)
Record db_page := {
  db_url : string;
  db_url_key : option string
}.

Definition not_colon (c : ascii) : bool := negb (Ascii.eqb c ":").
Definition not_slash (c : ascii) : bool := negb (Ascii.eqb c "/").

(** [HOST_EXPRESSION.match(url).group(1)]; the pattern is one or more
    characters other than a colon, then [://], then as group 1 one or more
    characters other than a slash.  [None] is the [AttributeError] raised
    when there is no match. *)
Definition HOST_EXPRESSION_group1 (url : string) : option string :=
  let (scheme, r) := Py.span not_colon url in
  match scheme, Py.strip_prefix "://" r with
  | String _ _, Some r =>
      match fst (Py.span not_slash r) with
      | EmptyString => None
      | host => Some host
      end
  | _, _ => None
  end.

(** The three sets of [_get_db_page_url_info]. *)
Record db_url_info := {
  url_keys : gset string;
  domains : gset string;
  domains_without_url_keys : gset string
}.

Definition empty_db_url_info : db_url_info :=
  {| url_keys := ∅; domains := ∅; domains_without_url_keys := ∅ |}.

(** The truth of [page['url_key']]. *)
Definition truthy_key (k : option string) : option string :=
  match k with
  | Some (String c s) => Some (String c s)
  | _ => None
  end.

(** The loop of [_get_db_page_url_info] over the pages. *)
Fixpoint db_page_url_info_loop (pages : list db_page) (info : db_url_info)
  : option db_url_info :=
  match pages with
  | [] => Some info
  | page :: pages' =>
      match HOST_EXPRESSION_group1 (db_url page) with
      | None => None
      | Some domain =>
          let domains' := domains info ∪ {[ domain ]} in
          if bool_decide (domain ∈ domains_without_url_keys info)
          then db_page_url_info_loop pages'
                 {| url_keys := url_keys info; domains := domains';
                    domains_without_url_keys := domains_without_url_keys info |}
          else
            match truthy_key (db_url_key page) with
            | Some url_key =>
                db_page_url_info_loop pages'
                  {| url_keys := url_keys info ∪ {[ rough_url_key url_key ]};
                     domains := domains';
                     domains_without_url_keys :=
                       domains_without_url_keys info |}
            | None =>
                db_page_url_info_loop pages'
                  {| url_keys := url_keys info; domains := domains';
                     domains_without_url_keys :=
                       domains_without_url_keys info ∪ {[ domain ]} |}
            end
      end
  end.

Definition SUBRESOURCE_MIME_TYPES : list string :=
  ["text/css"; "text/javascript"; "application/javascript"; "image/jpeg";
   "image/webp"; "image/png"; "image/gif"; "image/bmp"; "image/tiff";
   "image/x-icon"].

Definition SUBRESOURCE_EXTENSIONS : list string :=
  [".css"; ".js"; ".es"; ".es6"; ".jsm"; ".jpg"; ".jpeg"; ".webp"; ".png";
   ".gif"; ".bmp"; ".tif"; ".ico"].

(** [_is_page]; [path_extension url] stands for
    [splitext(urlparse(url).path)[1]] of the standard library. *)
Definition is_page (path_extension : string -> string) (version : CdxRecord)
  : bool :=
  negb (bool_decide (cdx_mime_type version ∈ SUBRESOURCE_MIME_TYPES))
  && negb (bool_decide (path_extension (cdx_url version)
                        ∈ SUBRESOURCE_EXTENSIONS)).

(** The [filterer] that [_get_db_page_url_info] returns, called with a
    version alone; [None] is the [AttributeError] of a URL without
    host. *)
Definition filterer (path_extension : string -> string) (info : db_url_info)
    (version : CdxRecord) : option bool :=
  match HOST_EXPRESSION_group1 (cdx_url version) with
  | None => None
  | Some domain =>
      if bool_decide (domain ∈ domains_without_url_keys info)
      then Some (is_page path_extension version)
      else Some (bool_decide (rough_url_key (cdx_key version) ∈ url_keys info))
  end.

(** [_get_db_page_url_info], given the pages that [_list_all_db_pages]
    yields. *)
Definition get_db_page_url_info (pages : list db_page) : option db_url_info :=
  db_page_url_info_loop pages empty_db_url_info.

(** What the loop knows of the pages it has seen. *)
Definition db_url_info_of (seen : list db_page) (info : db_url_info) : Prop :=
  (forall d, d ∈ domains info
     <-> exists p, In p seen /\ HOST_EXPRESSION_group1 (db_url p) = Some d)
  /\ (forall d, d ∈ domains_without_url_keys info
        <-> exists p, In p seen /\ HOST_EXPRESSION_group1 (db_url p) = Some d
                      /\ truthy_key (db_url_key p) = None)
  /\ (forall x, x ∈ url_keys info ->
        exists p k, In p seen /\ truthy_key (db_url_key p) = Some k
                    /\ x = rough_url_key k)
  /\ (forall p k d, In p seen -> truthy_key (db_url_key p) = Some k ->
        HOST_EXPRESSION_group1 (db_url p) = Some d ->
        d ∉ domains_without_url_keys info ->
        rough_url_key k ∈ url_keys info).

Definition sample_pages : list db_page :=
  [ {| db_url := "https://www.epa.gov/air/index.html";
       db_url_key := Some "gov,epa)/air/index.html" |};
    {| db_url := "http://www.noaa.gov/"; db_url_key := None |} ].

(** ** cli.py: the summary of [import_ia_urls] *)















(** * Properties *)

(** ** Redundant ports *)

(** Let [simpl] compute appends of strings with a known head. *)
#[local] Arguments String.append !_ _ / : simpl nomatch.

Lemma string_app_empty_r (s : string) : s +:+ EmptyString = s.
Proof. induction s as [|c s IH]; simpl; [reflexivity | now rewrite IH]. Qed.

Lemma string_app_assoc (a b c : string) : (a +:+ b) +:+ c = a +:+ (b +:+ c).
Proof. induction a as [|x a IH]; simpl; [reflexivity | now rewrite IH]. Qed.

Lemma span_app_stop (p : ascii -> bool) (a b : string) :
  Py.all_chars p a = true ->
  match b with EmptyString => True | String c _ => p c = false end ->
  Py.span p (a +:+ b) = (a, b).
Proof.
  induction a as [|c a IH]; simpl; intros Ha Hb.
  - destruct b as [|c b]; [reflexivity|]. simpl. now rewrite Hb.
  - apply andb_prop in Ha as [Hc Ha]. rewrite Hc, (IH Ha Hb). reflexivity.
Qed.

Lemma strip_prefix_app (p s : string) : Py.strip_prefix p (p +:+ s) = Some s.
Proof.
  induction p as [|c p IH]; simpl; [reflexivity|].
  now rewrite Ascii.eqb_refl.
Qed.

Lemma span_all (p : ascii -> bool) (a : string) :
  Py.all_chars p a = true -> Py.span p a = (a, EmptyString).
Proof.
  induction a as [|c a IH]; simpl; intros Ha; [reflexivity|].
  apply andb_prop in Ha as [Hc Ha]. now rewrite Hc, (IH Ha).
Qed.

(** [REDUNDANT_HTTP_PORT] removes [:80] after the host whatever follows
    it, also when what follows are further digits of a longer port. *)
Lemma REDUNDANT_HTTP_PORT_sub_any_tail (host tail : string) :
  host <> EmptyString ->
  Py.all_chars (fun c => negb (Ascii.eqb c ":" || Ascii.eqb c "/")) host = true ->
  Py.all_chars not_LF tail = true ->
  REDUNDANT_HTTP_PORT_sub ("http://" +:+ host +:+ ":80" +:+ tail)
  = "http://" +:+ host +:+ tail.
Proof.
  intros Hne Hhost Htail.
  unfold REDUNDANT_HTTP_PORT_sub, redundant_port_sub.
  rewrite strip_prefix_app.
  rewrite (span_app_stop _ host (":80" +:+ tail) Hhost) by reflexivity.
  destruct host as [|c host]; [congruence|].
  rewrite strip_prefix_app.
  unfold Py.dot_star_dollar. fold not_LF.
  rewrite (span_all _ tail Htail). simpl.
  now rewrite string_app_empty_r.
Qed.

(** C7. On ['http://a:80/x'] and ['https://a:443/?p=:80'] the
    canonicalization of [search] gives ['http://a/x'] and
    ['https://a/?p=:80']; on ['http://a:8080/x'], whose port is not
    redundant, it does not leave the URL unchanged but gives
    ['http://a80/x']. *)
Theorem clean_url_examples :
  clean_url "http://a:80/x" = "http://a/x"
  /\ clean_url "https://a:443/?p=:80" = "https://a/?p=:80"
  /\ clean_url "http://a:8080/x" = "http://a80/x".
Proof. repeat split; reflexivity. Qed.

(** ** The CDX query *)

Lemma search_query_pageSize (a : search_args) :
  kwargs a = [] -> Dict.get "pageSize" (search_query a) = Some (page a).
Proof. intros H. unfold search_query. rewrite H. reflexivity. Qed.

(** C3. A call [search(url, page=3, pageSize=5)] sends [pageSize=3], and
    [search(url, pageSize=5)] sends no [pageSize] at all: the wire
    parameter is the caller's [page], not the caller's [pageSize]. *)
Theorem search_pageSize_sends_page :
  let a := search_defaults "http://a/*" in
  let with_both := {|
    url := url a; matchType := matchType a; limit := limit a;
    offset := offset a; fastLatest := fastLatest a; gzip := gzip a;
    from_date := from_date a; to_date := to_date a;
    filter_field := filter_field a; collapse := collapse a;
    showResumeKey := showResumeKey a; resumeKey := resumeKey a;
    page := PInt 3; pageSize := PInt 5;
    resolveRevisits := resolveRevisits a;
    skip_malformed_results := skip_malformed_results a;
    kwargs := kwargs a |} in
  let with_pageSize := {|
    url := url a; matchType := matchType a; limit := limit a;
    offset := offset a; fastLatest := fastLatest a; gzip := gzip a;
    from_date := from_date a; to_date := to_date a;
    filter_field := filter_field a; collapse := collapse a;
    showResumeKey := showResumeKey a; resumeKey := resumeKey a;
    page := PNone; pageSize := PInt 5;
    resolveRevisits := resolveRevisits a;
    skip_malformed_results := skip_malformed_results a;
    kwargs := kwargs a |} in
  search_final_query with_both
  = inr [("url", "http://a/*"); ("showResumeKey", "true");
         ("resolveRevisits", "true"); ("page", "3"); ("pageSize", "3")]
  /\ search_final_query with_pageSize
  = inr [("url", "http://a/*"); ("showResumeKey", "true");
         ("resolveRevisits", "true")].
Proof. split; reflexivity. Qed.

(** ** Merging summaries *)

Lemma fold_add_summary (l : list summary) (acc : summary) :
  fold_left add_summary l acc
  = {| total := total acc + sum_of total l;
       success := success acc + sum_of success l;
       playback := playback acc + sum_of playback l;
       missing := missing acc + sum_of missing l;
       unknown := unknown acc + sum_of unknown l |}.
Proof.
  revert acc. induction l as [|s l IH]; intros acc; simpl.
  - destruct acc; simpl. f_equal; lia.
  - rewrite IH. unfold add_summary; simpl. f_equal; lia.
Qed.

(** C10. [merge_worker_summaries] is defined on every list of summaries;
    its counters are the sums of the summaries' counters; when the merged
    total is 0 the four percentages are 0, and otherwise (in particular
    when the total is positive) each is its counter divided by the
    total. *)
Theorem merge_worker_summaries_percentages (summaries : list summary) :
  let m := merge_worker_summaries summaries in
  let c := counters m in
  (total c = sum_of total summaries
   /\ success c = sum_of success summaries
   /\ playback c = sum_of playback summaries
   /\ missing c = sum_of missing summaries
   /\ unknown c = sum_of unknown summaries)
  /\ (total c = 0%Z ->
      success_pct m = 0%Q /\ playback_pct m = 0%Q
      /\ missing_pct m = 0%Q /\ unknown_pct m = 0%Q)
  /\ (total c <> 0%Z ->
      success_pct m = (inject_Z (success c) / inject_Z (total c))%Q
      /\ playback_pct m = (inject_Z (playback c) / inject_Z (total c))%Q
      /\ missing_pct m = (inject_Z (missing c) / inject_Z (total c))%Q
      /\ unknown_pct m = (inject_Z (unknown c) / inject_Z (total c))%Q).
Proof.
  intros m c. split; [|split].
  - subst c m. unfold merge_worker_summaries. simpl.
    rewrite fold_add_summary. simpl. repeat split; reflexivity.
  - intros H0. subst c m. unfold merge_worker_summaries in *. simpl in *.
    apply Z.eqb_eq in H0. rewrite H0. repeat split; reflexivity.
  - intros Hne. subst c m. unfold merge_worker_summaries in *. simpl in *.
    apply Z.eqb_neq in Hne. rewrite Hne. repeat split; reflexivity.
Qed.

Lemma merge_worker_summaries_percentages_witness :
  let m := merge_worker_summaries
             [ {| total := 3; success := 2; playback := 1;
                  missing := 0; unknown := 0 |};
               {| total := 1; success := 0; playback := 0;
                  missing := 1; unknown := 0 |} ] in
  total (counters m) = 4%Z
  /\ (success_pct m == 1 # 2)%Q /\ (playback_pct m == 1 # 4)%Q
  /\ (missing_pct m == 1 # 4)%Q /\ (unknown_pct m == 0)%Q.
Proof.
  pose proof (merge_worker_summaries_percentages
    [ {| total := 3; success := 2; playback := 1; missing := 0; unknown := 0 |};
      {| total := 1; success := 0; playback := 0; missing := 1; unknown := 0 |} ])
    as [_ [_ H]].
  destruct H as (H1 & H2 & H3 & H4); [vm_compute; discriminate|].
  cbv zeta. rewrite H1, H2, H3, H4. repeat split; reflexivity.
Defined.

(** ** The filter of unchanged versions *)

Lemma filter_unchanged_loop_app (m : gmap string string)
    (xs ys : list version) :
  filter_unchanged_loop m (xs ++ ys)
  = (filter_unchanged_loop m xs
     ++ filter_unchanged_loop (last_hashes_after m xs) ys)%list.
Proof.
  revert m. induction xs as [|v xs IH]; intros m; simpl; [reflexivity|].
  case_bool_decide; simpl; now rewrite IH.
Qed.

Lemma last_yielded_from (page : string) (out : list version)
    (acc : option string) :
  fold_left (fun acc v => if bool_decide (page_url v = page)
                          then Some (version_hash v) else acc) out acc
  = match last_yielded page out with Some h => Some h | None => acc end.
Proof.
  unfold last_yielded. revert acc.
  induction out as [|v out IH]; intros acc; simpl; [reflexivity|].
  rewrite IH. rewrite (IH (if bool_decide _ then _ else _)).
  destruct (fold_left _ out None); [reflexivity|].
  case_bool_decide; reflexivity.
Qed.

Lemma last_yielded_cons (page : string) (v : version) (out : list version) :
  last_yielded page (v :: out)
  = match last_yielded page out with
    | Some h => Some h
    | None => if bool_decide (page_url v = page)
              then Some (version_hash v) else None
    end.
Proof. unfold last_yielded at 1. simpl. apply last_yielded_from. Qed.

(** The dict holds, for every page, the last hash yielded for it. *)
Lemma last_hashes_after_lookup (m : gmap string string)
    (xs : list version) (page : string) :
  last_hashes_after m xs !! page
  = match last_yielded page (filter_unchanged_loop m xs) with
    | Some h => Some h
    | None => m !! page
    end.
Proof.
  revert m. induction xs as [|v xs IH]; intros m; simpl; [reflexivity|].
  unfold last_hashes_after in *. simpl.
  case_bool_decide as Hd; rewrite IH; [|reflexivity].
  rewrite last_yielded_cons.
  destruct (last_yielded page _); [reflexivity|].
  case_bool_decide as Hp.
  - subst page. now rewrite lookup_insert_eq.
  - now rewrite lookup_insert_ne.
Qed.

Lemma filter_unchanged_head (m : gmap string string) (xs : list version)
    (b : version) (out : list version) :
  filter_unchanged_loop m xs = b :: out ->
  m !! page_url b ≠ Some (version_hash b).
Proof.
  revert m. induction xs as [|v xs IH]; intros m; simpl; [discriminate|].
  case_bool_decide as Hd.
  - intros [= <- _]. exact Hd.
  - apply IH.
Qed.

Lemma filter_unchanged_adjacent (m : gmap string string) (xs : list version)
    (out1 out2 : list version) (a b : version) :
  filter_unchanged_loop m xs = (out1 ++ a :: b :: out2)%list ->
  page_url a = page_url b -> version_hash a ≠ version_hash b.
Proof.
  revert m out1. induction xs as [|v xs IH]; intros m out1; simpl.
  - destruct out1; discriminate.
  - case_bool_decide as Hd; [|apply IH].
    destruct out1 as [|o out1]; simpl.
    + intros [= <- Hrest] Hpage Hhash.
      apply filter_unchanged_head in Hrest.
      apply Hrest. rewrite <- Hpage, <- Hhash. apply lookup_insert_eq.
    + intros [= _ Hrest]. eapply IH, Hrest.
Qed.

(** What the generator does with one more version: it yields it exactly
    when its hash differs from the last hash yielded for its page. *)
Lemma filter_unchanged_versions_snoc (pre : list version) (v : version) :
  filter_unchanged_versions (pre ++ [v])
  = (filter_unchanged_versions pre
     ++ (if bool_decide (last_yielded (page_url v)
                                      (filter_unchanged_versions pre)
                         ≠ Some (version_hash v))
         then [v] else []))%list.
Proof.
  unfold filter_unchanged_versions.
  rewrite filter_unchanged_loop_app. f_equal. simpl.
  rewrite last_hashes_after_lookup, lookup_empty.
  destruct (last_yielded _ _); reflexivity.
Qed.

Lemma uploader_versions_resolved_response (versions : list version) :
  uploader_versions "resolved-response" versions
  = filter_unchanged_versions versions.
Proof. reflexivity. Qed.

(** The first version of a page that the generator yields differs in its
    hash from what the dict holds for the page. *)
Lemma filter_unchanged_first_of_page (page : string)
    (m : gmap string string) (xs : list version) (b : version)
    (out : list version) :
  versions_of_page page (filter_unchanged_loop m xs) = b :: out ->
  m !! page ≠ Some (version_hash b).
Proof.
  unfold versions_of_page.
  revert m. induction xs as [|v xs IH]; intros m; simpl; [discriminate|].
  case_bool_decide as Hd; [|apply IH].
  simpl. case_bool_decide as Hp.
  - intros [= <- _]. now rewrite <- Hp.
  - intros Hrest. apply IH in Hrest.
    now rewrite lookup_insert_ne in Hrest.
Qed.

(** Two versions of a page that the generator yields one after the other,
    whatever it yields for other pages in between, differ in their hash. *)
Lemma filter_unchanged_adjacent_of_page (page : string)
    (m : gmap string string) (xs : list version)
    (out1 out2 : list version) (a b : version) :
  versions_of_page page (filter_unchanged_loop m xs)
  = (out1 ++ a :: b :: out2)%list ->
  version_hash a ≠ version_hash b.
Proof.
  revert m out1. induction xs as [|v xs IH]; intros m out1; simpl.
  - destruct out1; discriminate.
  - case_bool_decide as Hd; [|apply IH].
    unfold versions_of_page. simpl. case_bool_decide as Hp; [|apply IH].
    destruct out1 as [|o out1]; simpl.
    + intros [= <- Hrest] Hhash.
      apply filter_unchanged_first_of_page in Hrest.
      apply Hrest. rewrite <- Hp, Hhash. apply lookup_insert_eq.
    + intros [= _ Hrest]. eapply IH, Hrest.
Qed.

(** C9. Under [skip_unchanged = 'resolved-response'], whatever versions
    come off the queue: of the versions of any one page handed to the
    uploader, no two that follow one another have the same [version_hash],
    whatever versions of other pages lie between them; in particular no
    two consecutive versions handed on have the same [page_url] and the
    same [version_hash]; a version is handed on, in its place, exactly when
    its hash differs from the last hash handed on for its page; and the
    versions (P,H1), (P,H1), (P,H2), (P,H2), (P,H1) give (P,H1), (P,H2),
    (P,H1). *)
Theorem filter_unchanged_versions_correct :
  let yielded := uploader_versions "resolved-response" in
  (forall (versions : list version) (page : string)
          (out1 out2 : list version) (a b : version),
      versions_of_page page (yielded versions)
      = (out1 ++ a :: b :: out2)%list ->
      version_hash a <> version_hash b)
  /\ (forall (versions out1 out2 : list version) (a b : version),
         yielded versions = (out1 ++ a :: b :: out2)%list ->
         ~ (page_url a = page_url b /\ version_hash a = version_hash b))
  /\ (forall (pre post : list version) (v : version),
         last_yielded (page_url v) (yielded pre) ≠ Some (version_hash v) ->
         exists out2,
           yielded (pre ++ v :: post)%list = (yielded pre ++ v :: out2)%list)
  /\ (forall (pre : list version) (v : version),
         yielded (pre ++ [v])%list
         = (yielded pre
            ++ (if bool_decide (last_yielded (page_url v) (yielded pre)
                                ≠ Some (version_hash v))
                then [v] else []))%list)
  /\ (let P := "http://example.com/" in
      yielded
        [sample_version P "H1"; sample_version P "H1"; sample_version P "H2";
         sample_version P "H2"; sample_version P "H1"]
      = [sample_version P "H1"; sample_version P "H2"; sample_version P "H1"]).
Proof.
  cbv zeta. split; [|split; [|split; [|split]]].
  - intros versions page out1 out2 a b Hout.
    rewrite uploader_versions_resolved_response in Hout.
    exact (filter_unchanged_adjacent_of_page _ _ _ _ _ _ _ Hout).
  - intros versions out1 out2 a b Hout [Hpage Hhash].
    rewrite uploader_versions_resolved_response in Hout.
    exact (filter_unchanged_adjacent _ _ _ _ _ _ Hout Hpage Hhash).
  - intros pre post v Hne.
    rewrite !uploader_versions_resolved_response in *.
    change (pre ++ v :: post)%list with (pre ++ [v] ++ post)%list.
    rewrite app_assoc.
    unfold filter_unchanged_versions at 1.
    rewrite filter_unchanged_loop_app.
    fold (filter_unchanged_versions (pre ++ [v])).
    rewrite filter_unchanged_versions_snoc.
    rewrite bool_decide_true by exact Hne.
    rewrite <- app_assoc. simpl. eauto.
  - intros pre v. rewrite !uploader_versions_resolved_response.
    apply filter_unchanged_versions_snoc.
  - vm_compute. reflexivity.
Qed.

Lemma filter_unchanged_versions_correct_witness :
  let P := "http://example.com/" in
  let Q := "http://example.org/" in
  let yielded := uploader_versions "resolved-response" in
  last_yielded P (yielded [sample_version P "H1"]) ≠ Some "H2"
  /\ (exists out2,
        yielded ([sample_version P "H1"] ++ sample_version P "H2"
                   :: [sample_version P "H2"])%list
        = (yielded [sample_version P "H1"]
           ++ sample_version P "H2" :: out2)%list)
  /\ ~ (page_url (sample_version P "H1") = page_url (sample_version P "H2")
        /\ version_hash (sample_version P "H1")
           = version_hash (sample_version P "H2"))
  /\ versions_of_page P
       (yielded [sample_version P "H1"; sample_version Q "H0";
                 sample_version P "H1"; sample_version P "H2"])
     = [sample_version P "H1"; sample_version P "H2"]
  /\ version_hash (sample_version P "H1")
     <> version_hash (sample_version P "H2").
Proof.
  destruct filter_unchanged_versions_correct as (Hpage & Hadj & Hkeep & _).
  split; [vm_compute; discriminate|]. split; [|split; [|split]].
  - apply (Hkeep [sample_version "http://example.com/" "H1"]
                 [sample_version "http://example.com/" "H2"]
                 (sample_version "http://example.com/" "H2")).
    vm_compute. discriminate.
  - apply (Hadj [sample_version "http://example.com/" "H1";
                 sample_version "http://example.com/" "H2"]
                [] []
                (sample_version "http://example.com/" "H1")
                (sample_version "http://example.com/" "H2")).
    vm_compute. reflexivity.
  - vm_compute. reflexivity.
  - apply (Hpage [sample_version "http://example.com/" "H1";
                  sample_version "http://example.org/" "H0";
                  sample_version "http://example.com/" "H1";
                  sample_version "http://example.com/" "H2"]
                 "http://example.com/" [] []
                 (sample_version "http://example.com/" "H1")
                 (sample_version "http://example.com/" "H2")).
    vm_compute. reflexivity.
Defined.

(** ** The retrying session *)

(** One pass through the loop of [send], by the outcome of the attempt. *)
Lemma send_loop_returns (fuel : nat) (self : WaybackSession) (t : transport)
    (kw : option timeout_value) (total_time maximum n : Z) (r : response) :
  t (Z.to_nat n) = inr r ->
  (n >=? maximum)%Z || negb (should_retry r) = true ->
  send_loop (S fuel) self t kw total_time maximum n
  = Some (inr r, [Attempt kw]).
Proof. intros Ht Hstop. simpl. now rewrite Ht, Hstop. Qed.

Lemma should_retry_memento (r : response) :
  Headers.mem "Memento-Datetime" (headers r) = true -> should_retry r = false.
Proof. intros H. unfold should_retry. now rewrite H. Qed.

(** A memento ends the loop at whatever attempt it arrives. *)
Lemma send_loop_memento (fuel : nat) (self : WaybackSession) (t : transport)
    (kw : option timeout_value) (total_time maximum n : Z) (r : response) :
  t (Z.to_nat n) = inr r ->
  Headers.mem "Memento-Datetime" (headers r) = true ->
  send_loop (S fuel) self t kw total_time maximum n
  = Some (inr r, [Attempt kw]).
Proof.
  intros Ht Hm. apply send_loop_returns; [exact Ht|].
  rewrite (should_retry_memento r Hm). apply orb_true_r.
Qed.

(** C8. When the first response carries a [Memento-Datetime] header,
    [send] returns it after that one attempt, without sleeping or
    retrying, whatever its status code. *)
Theorem send_memento_not_retried (self : WaybackSession) (t : transport)
    (kw : option timeout_value) (r : response) :
  t 0%nat = inr r ->
  Headers.mem "Memento-Datetime" (headers r) = true ->
  send self t kw = Some (inr r, [Attempt (apply_session_timeout self kw)]).
Proof.
  intros Ht Hm. unfold send. now apply send_loop_memento.
Qed.

Lemma send_memento_not_retried_witness :
  let r := sample_response 503
             [("Memento-Datetime", "Wed, 01 Jan 2020 00:00:00 GMT")] in
  bool_decide (status_code r ∈ retryable_statuses) = true
  /\ send {| retries := 4; backoff := 2; timeout := None |} (fun _ => inr r) None
     = Some (inr r, [Attempt None]).
Proof.
  split; [reflexivity|].
  apply (send_memento_not_retried
           {| retries := 4; backoff := 2; timeout := None |}
           (fun _ => inr (sample_response 503
              [("Memento-Datetime", "Wed, 01 Jan 2020 00:00:00 GMT")])) None);
    reflexivity.
Defined.

Lemma retryable_response_should_retry (r : response) :
  retryable_response r -> should_retry r = true.
Proof.
  intros [Hm Hs]. unfold should_retry. rewrite Hm. now apply bool_decide_eq_true.
Qed.

(** With only retryable responses the loop runs until the counter reaches
    [maximum]. *)
Lemma send_loop_all_retryable (self : WaybackSession) (t : transport)
    (kw : option timeout_value) (total_time : Z) (k n fuel : nat) :
  (forall i, exists r, t i = inr r /\ retryable_response r) ->
  (n < fuel)%nat ->
  exists r,
    t (k + n)%nat = inr r
    /\ send_loop fuel self t kw total_time (Z.of_nat (k + n)) (Z.of_nat k)
       = Some (inr r, retry_trace kw (backoff self) k n).
Proof.
  intros Hall. revert k fuel.
  induction n as [|n IH]; intros k fuel Hfuel.
  - destruct fuel as [|fuel]; [lia|].
    destruct (Hall k) as (r & Hr & _).
    exists r. rewrite Nat.add_0_r. split; [exact Hr|].
    apply send_loop_returns; [now rewrite Nat2Z.id|].
    apply orb_true_iff. left. apply Z.geb_le. lia.
  - destruct fuel as [|fuel]; [lia|].
    destruct (IH (S k) fuel ltac:(lia)) as (r & Hr & Hloop).
    replace (S k + n)%nat with (k + S n)%nat in * by lia.
    exists r. split; [exact Hr|].
    destruct (Hall k) as (r0 & Hr0 & Hretry).
    simpl send_loop. rewrite Nat2Z.id, Hr0.
    rewrite (retryable_response_should_retry r0 Hretry).
    replace (Z.of_nat k >=? Z.of_nat (k + S n))%Z with false
      by (symmetry; rewrite Z.geb_leb; apply Z.leb_gt; lia).
    simpl orb. cbv iota.
    replace (Z.of_nat k + 1)%Z with (Z.of_nat (S k)) by lia.
    rewrite Hloop. simpl retry_trace.
    destruct k as [|k].
    + reflexivity.
    + replace (Z.of_nat (S k) >? 0)%Z with true
        by (symmetry; apply Z.gtb_lt; lia).
      reflexivity.
Qed.

Lemma attempts_retry_trace (kw : option timeout_value) (b : Z) (k n : nat) :
  attempts (retry_trace kw b k n) = S n.
Proof.
  revert k. induction n as [|n IH]; intros k; [reflexivity|].
  simpl retry_trace. unfold attempts in *. simpl.
  destruct (k =? 0)%nat; simpl; now rewrite IH.
Qed.

Lemma sleeps_after_retry_trace (kw : option timeout_value) (b : Z)
    (k n j : nat) :
  (j < n)%nat ->
  sleeps_after j (retry_trace kw b k n)
  = if (k + j =? 0)%nat then [] else [(b * 2 ^ (Z.of_nat (k + j) - 1))%Z].
Proof.
  revert k j. induction n as [|n IH]; intros k j Hj; [lia|].
  simpl retry_trace.
  assert (Hlead : forall m, leading_sleeps (retry_trace kw b (S k) m) = []).
  { intros [|m]; reflexivity. }
  destruct j as [|j].
  - rewrite Nat.add_0_r. simpl.
    destruct (k =? 0)%nat; simpl; now rewrite Hlead.
  - replace (k + S j)%nat with (S k + j)%nat by lia.
    rewrite <- (IH (S k) j) by lia.
    simpl. destruct (k =? 0)%nat; reflexivity.
Qed.

(** C2. When every response has a retryable status and no
    [Memento-Datetime], [send] makes exactly [retries + 1] attempts and
    returns the last response.  With the attempts numbered from 0, as the
    counter [retries] of the code numbers them (attempt 1 is the first
    retry): nothing is slept before attempt 0 nor before attempt 1, and
    between attempt [k] and attempt [k + 1], for [k >= 1], one sleep of
    [backoff * 2 ^ (k - 1)] seconds is made. *)
Theorem send_retryable_attempts_and_sleeps (self : WaybackSession)
    (t : transport) (kw : option timeout_value) :
  (0 <= retries self)%Z ->
  (forall i, exists r, t i = inr r /\ retryable_response r) ->
  exists r tr,
    send self t kw = Some (inr r, tr)
    /\ t (Z.to_nat (retries self)) = inr r
    /\ Z.of_nat (attempts tr) = (retries self + 1)%Z
    /\ leading_sleeps tr = []
    /\ sleeps_after 0 tr = []
    /\ (forall k, (1 <= k)%nat -> (Z.of_nat k < retries self)%Z ->
        sleeps_after k tr = [(backoff self * 2 ^ (Z.of_nat k - 1))%Z]).
Proof.
  intros Hpos Hall.
  set (kw' := apply_session_timeout self kw).
  set (n := Z.to_nat (retries self)).
  destruct (send_loop_all_retryable self t kw' 0 0 n (S n) Hall ltac:(lia))
    as (r & Hr & Hloop).
  exists r, (retry_trace kw' (backoff self) 0 n).
  simpl plus in *.
  assert (Hn : Z.of_nat n = retries self) by (subst n; lia).
  rewrite Hn in Hloop.
  split; [exact Hloop|]. split; [exact Hr|].
  split; [rewrite attempts_retry_trace; lia|].
  split; [destruct n; reflexivity|].
  split.
  { destruct n as [|n']; [reflexivity|].
    now rewrite (sleeps_after_retry_trace kw' (backoff self) 0 (S n') 0) by lia. }
  intros k Hk1 Hk2.
  rewrite (sleeps_after_retry_trace kw' (backoff self) 0 n k) by lia.
  simpl plus. destruct k; [lia|]. reflexivity.
Qed.

Lemma send_retryable_attempts_and_sleeps_witness :
  exists r tr,
    send {| retries := 4; backoff := 2; timeout := None |} always_503 None
    = Some (inr r, tr)
    /\ attempts tr = 5%nat
    /\ sleeps_after 0 tr = []
    /\ sleeps_after 1 tr = [2%Z]
    /\ sleeps_after 2 tr = [4%Z]
    /\ sleeps_after 3 tr = [8%Z].
Proof.
  destruct (send_retryable_attempts_and_sleeps
              {| retries := 4; backoff := 2; timeout := None |} always_503 None)
    as (r & tr & Hsend & _ & Hn & _ & H0 & Hk).
  - simpl. lia.
  - intros i. exists (sample_response 503 []).
    split; [reflexivity|]. split; [reflexivity|].
    apply (bool_decide_unpack _). reflexivity.
  - exists r, tr. split; [exact Hsend|]. split; [simpl in Hn; lia|].
    split; [exact H0|].
    split; [apply (Hk 1%nat); simpl; lia|].
    split; [apply (Hk 2%nat); simpl; lia|].
    apply (Hk 3%nat); simpl; lia.
Defined.

Lemma attempts_cons_attempt (kw : option timeout_value) (sleeps tr : list event) :
  (sleeps = [] \/ exists n, sleeps = [Sleep n]) ->
  attempts (Attempt kw :: sleeps ++ tr) = S (attempts tr).
Proof. intros [-> | [n ->]]; reflexivity. Qed.

(** What a run of the loop ends with is decided by its last attempt. *)
Lemma send_loop_result (fuel : nat) (self : WaybackSession) (t : transport)
    (kw : option timeout_value) (total_time maximum n : Z)
    (res : exn + response) (tr : list event) :
  (0 <= n)%Z ->
  send_loop fuel self t kw total_time maximum n = Some (res, tr) ->
  let last := (Z.to_nat n + attempts tr - 1)%nat in
  (1 <= attempts tr)%nat
  /\ (Z.of_nat last <= Z.max n maximum)%Z
  /\ match t last with
     | inr r => res = inr r
     | inl e =>
         if is_handleable_error e && (maximum <=? Z.of_nat last)%Z
         then res = inl (WaybackRetryError (Z.of_nat last) total_time e)
         else res = inl (Propagated e)
     end.
Proof.
  revert n res tr. induction fuel as [|fuel IH]; intros n res tr Hn;
    [discriminate|].
  assert (Hagain :
    forall sleeps, (sleeps = [] \/ exists m, sleeps = [Sleep m]) ->
      (n <? maximum)%Z = true ->
      match send_loop fuel self t kw total_time maximum (n + 1)%Z with
      | Some (r, tr0) => Some (r, Attempt kw :: sleeps ++ tr0)
      | None => None
      end = Some (res, tr) ->
      let last := (Z.to_nat n + attempts tr - 1)%nat in
      (1 <= attempts tr)%nat
      /\ (Z.of_nat last <= Z.max n maximum)%Z
      /\ match t last with
         | inr r => res = inr r
         | inl e =>
             if is_handleable_error e && (maximum <=? Z.of_nat last)%Z
             then res = inl (WaybackRetryError (Z.of_nat last) total_time e)
             else res = inl (Propagated e)
         end).
  { intros sleeps Hsl Hlt.
    destruct (send_loop fuel self t kw total_time maximum (n + 1)%Z)
      as [[r0 tr0]|] eqn:Hrec; [|discriminate].
    intros [= <- <-].
    destruct (IH (n + 1)%Z r0 tr0 ltac:(lia) Hrec) as (H1 & H2 & H3).
    rewrite (attempts_cons_attempt kw sleeps tr0 Hsl).
    apply Z.ltb_lt in Hlt.
    replace (Z.to_nat n + S (attempts tr0) - 1)%nat
      with (Z.to_nat (n + 1) + attempts tr0 - 1)%nat by lia.
    cbv zeta. split; [lia|]. split; [lia|]. exact H3. }
  assert (Hsleeps :
    (if (n >? 0)%Z then [Sleep (backoff self * 2 ^ (n - 1))%Z] else []) = []
    \/ exists m,
      (if (n >? 0)%Z then [Sleep (backoff self * 2 ^ (n - 1))%Z] else [])
      = [Sleep m]).
  { destruct (n >? 0)%Z; eauto. }
  simpl send_loop.
  destruct (t (Z.to_nat n)) as [e|r] eqn:Ht.
  - destruct (is_handleable_error e) eqn:Hh.
    + destruct (n >=? maximum)%Z eqn:Hge.
      * intros [= <- <-]. change (attempts [Attempt kw]) with 1%nat.
        replace (Z.to_nat n + 1 - 1)%nat with (Z.to_nat n) by lia.
        cbv zeta. rewrite Ht, Hh, Z2Nat.id by lia.
        rewrite Z.geb_leb in Hge. rewrite Hge.
        split; [lia|]. split; [lia|]. reflexivity.
      * rewrite Z.geb_leb in Hge.
        destruct (should_retry_error e).
        -- simpl negb. cbv iota. apply Hagain; [exact Hsleeps|].
           apply Z.ltb_lt. apply Z.leb_gt in Hge. lia.
        -- simpl negb. cbv iota. intros [= <- <-]. change (attempts [Attempt kw]) with 1%nat.
           replace (Z.to_nat n + 1 - 1)%nat with (Z.to_nat n) by lia.
           cbv zeta. rewrite Ht, Hh, Z2Nat.id, Hge by lia.
           split; [lia|]. split; [lia|]. reflexivity.
    + intros [= <- <-]. change (attempts [Attempt kw]) with 1%nat.
      replace (Z.to_nat n + 1 - 1)%nat with (Z.to_nat n) by lia.
      cbv zeta. rewrite Ht, Hh. split; [lia|]. split; [lia|]. reflexivity.
  - destruct ((n >=? maximum)%Z || negb (should_retry r)) eqn:Hstop.
    + intros [= <- <-]. change (attempts [Attempt kw]) with 1%nat.
      replace (Z.to_nat n + 1 - 1)%nat with (Z.to_nat n) by lia.
      cbv zeta. rewrite Ht. split; [lia|]. split; [lia|]. reflexivity.
    + apply orb_false_iff in Hstop as [Hge _].
      rewrite Z.geb_leb in Hge.
      apply Hagain; [exact Hsleeps|].
      apply Z.ltb_lt. apply Z.leb_gt in Hge. lia.
Qed.

(** The loop ends: the counter cannot pass [maximum]. *)
Lemma send_loop_terminates (fuel : nat) (self : WaybackSession)
    (t : transport) (kw : option timeout_value) (total_time maximum n : Z) :
  (Z.to_nat (maximum - n) < fuel)%nat ->
  exists res tr, send_loop fuel self t kw total_time maximum n = Some (res, tr).
Proof.
  revert n. induction fuel as [|fuel IH]; intros n Hfuel; [lia|].
  simpl send_loop.
  assert (Hagain : (n >=? maximum)%Z = false ->
    exists res tr,
      match send_loop fuel self t kw total_time maximum (n + 1)%Z with
      | Some (r, tr0) =>
          Some (r, Attempt kw ::
                   (if (n >? 0)%Z then [Sleep (backoff self * 2 ^ (n - 1))%Z]
                    else []) ++ tr0)
      | None => None
      end = Some (res, tr)).
  { intros Hge. rewrite Z.geb_leb in Hge. apply Z.leb_gt in Hge.
    destruct (IH (n + 1)%Z ltac:(lia)) as (res & tr & ->). eauto. }
  destruct (t (Z.to_nat n)) as [e|r].
  - destruct (is_handleable_error e); [|eauto].
    destruct (n >=? maximum)%Z eqn:Hge; [eauto|].
    destruct (negb (should_retry_error e)); [eauto|]. now apply Hagain.
  - destruct (n >=? maximum)%Z eqn:Hge; simpl orb; [eauto|].
    destruct (negb (should_retry r)); [eauto|]. now apply Hagain.
Qed.

Lemma send_terminates (self : WaybackSession) (t : transport)
    (kw : option timeout_value) :
  exists res tr, send self t kw = Some (res, tr).
Proof. unfold send. apply send_loop_terminates. lia. Qed.

(** C5, as the code has it.  [send] always ends.  When its last attempt
    raised a handleable error after the retries were used up, it raises
    [WaybackRetryError] carrying the number of retries made, which is the
    number of attempts less one, and the error of that attempt as the
    cause.  An error that is not handleable is raised as it is, and so is
    a handleable error met before the retries are used up and not worth a
    retry. *)
Theorem send_raises (self : WaybackSession) (t : transport)
    (kw : option timeout_value) :
  exists res tr,
    send self t kw = Some (res, tr)
    /\ (1 <= attempts tr)%nat
    /\ (Z.of_nat (attempts tr) <= Z.max 0 (retries self) + 1)%Z
    /\ forall e, t (attempts tr - 1)%nat = inl e ->
         (is_handleable_error e = true ->
          (retries self <= Z.of_nat (attempts tr) - 1)%Z ->
          exists total_time,
            res = inl (WaybackRetryError (Z.of_nat (attempts tr) - 1)
                                         total_time e))
         /\ (is_handleable_error e = true ->
             (Z.of_nat (attempts tr) - 1 < retries self)%Z ->
             res = inl (Propagated e))
         /\ (is_handleable_error e = false -> res = inl (Propagated e)).
Proof.
  destruct (send_terminates self t kw) as (res & tr & Hsend).
  exists res, tr. split; [exact Hsend|].
  unfold send in Hsend.
  apply send_loop_result in Hsend; [|lia].
  simpl Z.to_nat in Hsend. simpl plus in Hsend.
  destruct Hsend as (H1 & H2 & H3).
  split; [exact H1|]. split; [lia|].
  intros e He. rewrite He in H3.
  replace (Z.of_nat (attempts tr - 1)) with (Z.of_nat (attempts tr) - 1)%Z
    in H3 by lia.
  split; [|split].
  - intros Hh Hle. rewrite Hh in H3.
    apply Z.leb_le in Hle. rewrite Hle in H3. simpl in H3. eauto.
  - intros Hh Hlt. rewrite Hh in H3.
    apply Z.leb_gt in Hlt. rewrite Hlt in H3. exact H3.
  - intros Hh. rewrite Hh in H3. exact H3.
Qed.

Lemma send_raises_witness :
  is_handleable_error timeout_error = true
  /\ exists total_time,
       send {| retries := 2; backoff := 2; timeout := None |}
            always_timeout None
       = Some (inl (WaybackRetryError 2 total_time timeout_error),
               [Attempt None; Attempt None; Sleep 2; Attempt None]).
Proof.
  split; [reflexivity|].
  destruct (send_raises {| retries := 2; backoff := 2; timeout := None |}
                        always_timeout None)
    as (res & tr & Hsend & _ & _ & Hlast).
  vm_compute in Hsend. injection Hsend as <- <-.
  destruct (Hlast timeout_error eq_refl) as (Hwrapped & _ & _).
  destruct (Hwrapped eq_refl ltac:(vm_compute; discriminate))
    as (total_time & Hres).
  exists total_time. vm_compute. vm_compute in Hres.
  injection Hres as <-. reflexivity.
Defined.

(** C5, as the claim has it, fails: after three attempts that time out,
    with a sleep of two seconds among them, the error carries 2 and 0. *)
Lemma send_retry_error_not_attempts_nor_elapsed :
  ~ (forall self t kw n total_time e tr,
        send self t kw = Some (inl (WaybackRetryError n total_time e), tr) ->
        n = Z.of_nat (attempts tr) /\ (slept tr <= total_time)%Z).
Proof.
  intros H.
  specialize (H {| retries := 2; backoff := 2; timeout := None |}
                always_timeout None 2%Z 0%Z timeout_error
                [Attempt None; Attempt None; Sleep 2; Attempt None]
                eq_refl).
  destruct H as [H _]. discriminate H.
Qed.

(** ** Rough keys *)

Lemma rough_url_key_stages (x : string) :
  rough_url_key x = strip_index_slash (cut_query_fragment (Py.lower x)).
Proof. reflexivity. Qed.

Lemma lower_char_fixed (c : ascii) :
  Py.is_upper c = false -> Py.lower_char c = c.
Proof. intros H. unfold Py.lower_char. now rewrite H. Qed.

Lemma lower_char_not_upper (c : ascii) : Py.is_upper (Py.lower_char c) = false.
Proof. destruct c as [[] [] [] [] [] [] [] []]; reflexivity. Qed.

Lemma lower_app (a b : string) :
  Py.lower (a +:+ b) = Py.lower a +:+ Py.lower b.
Proof. induction a as [|c a IH]; simpl; [reflexivity | now rewrite IH]. Qed.

Lemma all_chars_impl (p q : ascii -> bool) (s : string) :
  (forall c, p c = true -> q c = true) ->
  Py.all_chars p s = true -> Py.all_chars q s = true.
Proof.
  intros Hpq. induction s as [|c s IH]; simpl; [reflexivity|].
  intros H. apply andb_prop in H as [Hc Hs]. now rewrite (Hpq c Hc), IH.
Qed.

Lemma lower_fixed (s : string) :
  Py.all_chars (fun c => negb (Py.is_upper c)) s = true -> Py.lower s = s.
Proof.
  induction s as [|c s IH]; simpl; [reflexivity|].
  intros H. apply andb_prop in H as [Hc Hs].
  rewrite lower_char_fixed, IH; auto. now apply negb_true_iff.
Qed.

Lemma split_first_fixed (sep : ascii) (s : string) :
  Py.all_chars (fun c => negb (Ascii.eqb c sep)) s = true ->
  Py.split_first sep s = s.
Proof.
  induction s as [|c s IH]; simpl; [reflexivity|].
  intros H. apply andb_prop in H as [Hc Hs].
  apply negb_true_iff in Hc. now rewrite Hc, IH.
Qed.

Lemma all_chars_split_first (p : ascii -> bool) (sep : ascii) (s : string) :
  Py.all_chars p s = true ->
  Py.all_chars (fun c => p c && negb (Ascii.eqb c sep)) (Py.split_first sep s)
  = true.
Proof.
  induction s as [|c s IH]; simpl; [reflexivity|].
  intros H. apply andb_prop in H as [Hc Hs].
  destruct (Ascii.eqb c sep) eqn:E; simpl; [reflexivity|].
  now rewrite Hc, E, IH.
Qed.

Lemma dollar_same (s l : string) : Py.dollar s = Some l -> l = s.
Proof.
  destruct s as [|c [|d s]]; simpl; try discriminate.
  - now intros [= <-].
  - destruct (Ascii.eqb c Py.LF); [now intros [= <-] | discriminate].
Qed.

Lemma dollar_short (s l : string) :
  Py.dollar s = Some l -> (String.length l <= 1)%nat.
Proof.
  intros H. pose proof (dollar_same s l H) as ->.
  destruct s as [|c [|d s]]; simpl in *; try discriminate; lia.
Qed.

Lemma strip_prefix_length (pre s r : string) :
  Py.strip_prefix pre s = Some r ->
  String.length s = (String.length pre + String.length r)%nat.
Proof.
  revert s. induction pre as [|a pre IH]; intros s; simpl.
  - now intros [= ->].
  - destruct s as [|b s]; [discriminate|].
    destruct (Ascii.eqb a b); [|discriminate].
    intros H. simpl. now rewrite (IH s H).
Qed.

Lemma drop_last_length (s : string) :
  s <> EmptyString -> S (String.length (Py.drop_last s)) = String.length s.
Proof.
  induction s as [|c s IH]; [congruence|]. intros _.
  destruct s as [|d s]; [reflexivity|].
  change (Py.drop_last (String c (String d s)))
    with (String c (Py.drop_last (String d s))).
  cbn [String.length]. f_equal. now apply IH.
Qed.

(** What the stages of [rough_url_key] keep: they only remove
    characters, so a class [p] that holds every character of their input
    holds every character of their output. *)
Section Preserved.

Variable p : ascii -> bool.

Lemma all_chars_strip_prefix (pre s r : string) :
  Py.strip_prefix pre s = Some r ->
  Py.all_chars p s = true -> Py.all_chars p r = true.
Proof.
  revert s. induction pre as [|a pre IH]; intros s; simpl.
  - now intros [= ->].
  - destruct s as [|b s]; [discriminate|].
    destruct (Ascii.eqb a b); [|discriminate].
    intros Hr H. simpl in H. apply andb_prop in H as [_ Hs]. eauto.
Qed.

Lemma all_chars_span_rest (q : ascii -> bool) (s : string) :
  Py.all_chars p s = true -> Py.all_chars p (snd (Py.span q s)) = true.
Proof.
  induction s as [|c s IH]; simpl; [reflexivity|].
  intros H. destruct (q c).
  - apply andb_prop in H as [_ Hs]. specialize (IH Hs).
    destruct (Py.span q s). exact IH.
  - exact H.
Qed.

Lemma index_page_ext_left_over (s l : string) :
  index_page_ext s = Some l ->
  (String.length l <= 1)%nat
  /\ (Py.all_chars p s = true -> Py.all_chars p l = true).
Proof.
  unfold index_page_ext.
  destruct s as [|a [|c s]]; try discriminate.
  - destruct a as [[] [] [] [] [] [] [] []]; discriminate.
  - destruct (Ascii.eqb a ".") eqn:Ea.
    + apply Ascii.eqb_eq in Ea. subst a.
      destruct (Py.is_word c); [|discriminate].
      intros Hd. split; [exact (dollar_short _ _ Hd)|].
      intros H. rewrite (dollar_same _ _ Hd).
      simpl in H. apply andb_prop in H as [_ H].
      apply andb_prop in H as [_ H]. now apply all_chars_span_rest.
    + destruct a as [[] [] [] [] [] [] [] []]; try discriminate.
Qed.

Lemma index_page_match_left_over (s l : string) :
  index_page_match s = Some l ->
  (String.length l < String.length s)%nat
  /\ (Py.all_chars p s = true -> Py.all_chars p l = true).
Proof.
  unfold index_page_match.
  destruct (Py.strip_prefix "index" s) as [r|] eqn:Hpre; [|discriminate].
  pose proof (strip_prefix_length _ _ _ Hpre) as Hlen. simpl in Hlen.
  destruct (index_page_ext r) as [l'|] eqn:Hext.
  - intros [= <-].
    destruct (index_page_ext_left_over r l' Hext) as [H1 H2].
    split; [lia|]. intros H. apply H2.
    exact (all_chars_strip_prefix _ _ _ Hpre H).
  - intros Hd. split; [pose proof (dollar_short _ _ Hd); lia|].
    intros H. rewrite (dollar_same _ _ Hd).
    exact (all_chars_strip_prefix _ _ _ Hpre H).
Qed.

Lemma all_chars_INDEX_PAGE_EXPRESSION_sub (s : string) :
  Py.all_chars p s = true ->
  Py.all_chars p (INDEX_PAGE_EXPRESSION_sub s) = true.
Proof.
  induction s as [|c s IH]; [reflexivity|].
  change (INDEX_PAGE_EXPRESSION_sub (String c s))
    with (match index_page_match (String c s) with
          | Some left_over => left_over
          | None => String c (INDEX_PAGE_EXPRESSION_sub s)
          end).
  intros H. destruct (index_page_match (String c s)) as [l|] eqn:Hm.
  - exact (proj2 (index_page_match_left_over _ _ Hm) H).
  - simpl in *. apply andb_prop in H as [Hc Hs]. now rewrite Hc, IH.
Qed.

Lemma all_chars_drop_last (s : string) :
  Py.all_chars p s = true -> Py.all_chars p (Py.drop_last s) = true.
Proof.
  induction s as [|c s IH]; [reflexivity|].
  destruct s as [|d s]; [reflexivity|].
  change (Py.drop_last (String c (String d s)))
    with (String c (Py.drop_last (String d s))).
  intros H. simpl in H. apply andb_prop in H as [Hc Hs].
  simpl Py.all_chars at 1. rewrite Hc. simpl. apply IH, Hs.
Qed.

End Preserved.

Lemma INDEX_PAGE_EXPRESSION_sub_length (s : string) :
  (String.length (INDEX_PAGE_EXPRESSION_sub s) <= String.length s)%nat
  /\ (String.length (INDEX_PAGE_EXPRESSION_sub s) = String.length s ->
      INDEX_PAGE_EXPRESSION_sub s = s).
Proof.
  induction s as [|c s [IH1 IH2]].
  - simpl. split; [lia | reflexivity].
  - change (INDEX_PAGE_EXPRESSION_sub (String c s))
      with (match index_page_match (String c s) with
            | Some left_over => left_over
            | None => String c (INDEX_PAGE_EXPRESSION_sub s)
            end).
    destruct (index_page_match (String c s)) as [l|] eqn:Hm.
    + destruct (index_page_match_left_over (fun _ => true) _ _ Hm) as [Hl _].
      split; [lia | intros; lia].
    + simpl. split; [lia|]. intros [= H]. now rewrite IH2.
Qed.

Lemma endswith_char_nonempty (c : ascii) (s : string) :
  Py.endswith_char c s = true -> s <> EmptyString.
Proof. destruct s; [discriminate | discriminate]. Qed.

(** A rough key has no upper case letter, no [?] and no [#]. *)
Lemma rough_url_key_chars (x : string) :
  Py.all_chars rough_char (rough_url_key x) = true.
Proof.
  rewrite rough_url_key_stages. unfold strip_index_slash, cut_query_fragment.
  assert (H : Py.all_chars rough_char
                (Py.split_first "#" (Py.split_first "?" (Py.lower x))) = true).
  { eapply all_chars_impl;
      [|apply all_chars_split_first, all_chars_split_first
          with (p := fun c => negb (Py.is_upper c))].
    - intros c Hc. unfold rough_char. exact Hc.
    - induction x as [|c x IH]; simpl; [reflexivity|].
      now rewrite lower_char_not_upper, IH. }
  apply (all_chars_INDEX_PAGE_EXPRESSION_sub rough_char) in H.
  destruct (Py.endswith_char "/" _); [now apply all_chars_drop_last | exact H].
Qed.

(** On a rough key only the second stage of [rough_url_key] acts. *)
Lemma rough_url_key_of_rough (k : string) :
  Py.all_chars rough_char k = true -> rough_url_key k = strip_index_slash k.
Proof.
  intros H. rewrite rough_url_key_stages. unfold cut_query_fragment.
  assert (Hside : forall q : ascii -> bool,
             (forall c, rough_char c = true -> q c = true) ->
             Py.all_chars q k = true).
  { intros q Hq. eapply all_chars_impl; [exact Hq | exact H]. }
  rewrite lower_fixed, (split_first_fixed "?" k), (split_first_fixed "#" k);
    [reflexivity|..].
  all: apply Hside; intros c Hc; unfold rough_char in Hc;
    apply andb_prop in Hc as [Hc1 Hc3]; apply andb_prop in Hc1 as [Hc1 Hc2];
    assumption.
Qed.

Lemma strip_index_slash_fixed (k : string) :
  strip_index_slash k = k
  <-> INDEX_PAGE_EXPRESSION_sub k = k /\ Py.endswith_char "/" k = false.
Proof.
  unfold strip_index_slash.
  destruct (INDEX_PAGE_EXPRESSION_sub_length k) as [Hle Heq].
  split.
  - intros H.
    destruct (Py.endswith_char "/" (INDEX_PAGE_EXPRESSION_sub k)) eqn:E.
    + pose proof (drop_last_length _ (endswith_char_nonempty _ _ E)) as Hd.
      rewrite H in Hd. lia.
    + rewrite H in E. split; [exact H | exact E].
  - intros [-> ->]. reflexivity.
Qed.

Lemma cut_query_fragment_app (u q : string) (c : ascii) :
  c = "?"%char \/ c = "#"%char ->
  cut_query_fragment (u +:+ String c q) = cut_query_fragment u.
Proof.
  intros Hc. unfold cut_query_fragment.
  induction u as [|a u IH]; simpl.
  - destruct Hc as [-> | ->]; reflexivity.
  - destruct (Ascii.eqb a "?"); [reflexivity|]. simpl.
    destruct (Ascii.eqb a "#"); [reflexivity|]. now rewrite IH.
Qed.

(** C6, as the code has it.  Applying [rough_url_key] twice gives the same
    as applying it once exactly when the rough key has no match of the
    index page expression left and does not end with a slash; and a
    suffix that starts with [?] or [#] does not change the rough key. *)
Theorem rough_url_key_idempotent_iff_and_suffix :
  (forall x : string,
      rough_url_key (rough_url_key x) = rough_url_key x
      <-> INDEX_PAGE_EXPRESSION_sub (rough_url_key x) = rough_url_key x
          /\ Py.endswith_char "/" (rough_url_key x) = false)
  /\ (forall (u q : string) (c : ascii),
         c = "?"%char \/ c = "#"%char ->
         rough_url_key (u +:+ String c q) = rough_url_key u).
Proof.
  split.
  - intros x. rewrite (rough_url_key_of_rough _ (rough_url_key_chars x)).
    apply strip_index_slash_fixed.
  - intros u q c Hc. rewrite !rough_url_key_stages, lower_app. simpl Py.lower.
    rewrite cut_query_fragment_app; [reflexivity|].
    destruct Hc as [-> | ->]; [left | right]; reflexivity.
Qed.

Lemma rough_url_key_idempotent_iff_and_suffix_witness :
  rough_url_key ("Gov,EPA)/Air/Index.html" +:+ "?page=2#top")
  = rough_url_key "Gov,EPA)/Air/Index.html"
  /\ rough_url_key (rough_url_key "Gov,EPA)/Air/Index.html")
     = rough_url_key "Gov,EPA)/Air/Index.html".
Proof.
  destruct rough_url_key_idempotent_iff_and_suffix as (Hidem & Hsuffix).
  split.
  - apply (Hsuffix "Gov,EPA)/Air/Index.html" "page=2#top" "?"%char).
    left. reflexivity.
  - apply (proj2 (Hidem "Gov,EPA)/Air/Index.html")).
    split; reflexivity.
Defined.

(** C6, as the claim has it, fails: the rough key of ['a//'] is ['a/'],
    whose rough key is ['a']; and the rough key of ['a/index/index'] is
    ['a/index'], whose rough key is ['a']. *)
Lemma rough_url_key_not_idempotent :
  rough_url_key "a//" = "a/"
  /\ rough_url_key (rough_url_key "a//") = "a"
  /\ rough_url_key "a/index/index" = "a/index"
  /\ rough_url_key (rough_url_key "a/index/index") = "a"
  /\ ~ (forall x, rough_url_key (rough_url_key x) = rough_url_key x).
Proof.
  repeat split; try reflexivity.
  intros H. specialize (H "a//"). discriminate H.
Qed.

(** ** Fetching mementos *)

(** The circular check of [follow_next]. *)
Lemma follow_next_circular (url : string) (is_memento : bool)
    (st : memento_state) (r : response) (next_url : string) :
  next r = Some next_url ->
  next_url ∈ urls st ∪ {[ resp_url r ]} ->
  follow_next url is_memento st r
  = Raise (MementoPlaybackError ("Memento at " +:+ url +:+ " is circular")).
Proof.
  intros Hn Hin. unfold follow_next. rewrite Hn.
  now rewrite bool_decide_true.
Qed.

(** What [get_memento] raises, [timestamped_uri_to_version] raises. *)
Lemma timestamped_uri_to_version_raises (U : utils) (fuel : nat)
    (session : requester) (dt : datetime) (uri url : string)
    (maintainers tags : option (list string)) (view_url : option string)
    (e : exn) :
  get_memento fuel session uri default_redirect_target_window = Some (inl e) ->
  timestamped_uri_to_version U fuel session dt uri url maintainers tags view_url
  = Some (inl e).
Proof. intros H. unfold timestamped_uri_to_version. now rewrite H. Qed.

Lemma list_last_cons {A} (l : list A) (a d : A) :
  List.last (a :: l) d = List.last l a.
Proof.
  revert a d. induction l as [|b l IH]; intros a d; [reflexivity|].
  change (List.last (a :: b :: l) d) with (List.last (b :: l) d).
  rewrite IH. symmetry. apply IH.
Qed.

(** From an accepted response the body of the loop goes on to the check
    of the next URL. *)
Lemma get_memento_step_accepted (url : string) (window : Z) (date : datetime)
    (st : memento_state) (r : response) :
  accepted window date (previous_was_memento st) r = true ->
  get_memento_step url window date st r
  = follow_next url (Headers.mem "Memento-Datetime" (headers r)) st r.
Proof.
  unfold accepted, get_memento_step.
  destruct (Headers.mem "Memento-Datetime" (headers r)); [reflexivity|].
  simpl.
  change (playable window date
            {| history := []; urls := ∅;
               previous_was_memento := previous_was_memento st |} r)
    with (playable window date st r).
  destruct (playable window date st r) as [e|[|]]; try discriminate.
  reflexivity.
Qed.

(** The loop keeps in [urls] the URLs of the responses it has gone on
    from: a chain of accepted responses whose last redirect goes to one of
    these URLs, or to the URL of a response of the chain, ends with the
    circular error. *)
Lemma get_memento_loop_circular (session : requester) (url : string)
    (window : Z) (date : datetime) (chain : list response) :
  forall (fuel : nat) (st : memento_state) (r : response) (target : string),
    redirect_chain session r chain ->
    accepted_chain window date (previous_was_memento st) (r :: chain) = true ->
    next (List.last chain r) = Some target ->
    target ∈ urls st \/ In target (List.map resp_url (r :: chain)) ->
    (length (r :: chain) <= fuel)%nat ->
    get_memento_loop fuel session url window date st r
    = Some (inl (MementoPlaybackError
                   ("Memento at " +:+ url +:+ " is circular"))).
Proof.
  induction chain as [|r' chain IH]; intros fuel st r target Hchain Hacc Hlast
    Hin Hfuel.
  - destruct fuel as [|fuel]; [simpl in Hfuel; lia|].
    simpl in Hacc. rewrite andb_true_r in Hacc.
    cbn [get_memento_loop]. rewrite (get_memento_step_accepted _ _ _ _ _ Hacc).
    simpl in Hlast.
    rewrite (follow_next_circular _ _ _ _ target Hlast); [reflexivity|].
    apply elem_of_union. destruct Hin as [Hin | [<- | []]];
      [left; exact Hin | right; now apply elem_of_singleton].
  - destruct fuel as [|fuel]; [simpl in Hfuel; lia|].
    destruct Hchain as (next_url & Hnext & Hsession & Hchain).
    change (accepted_chain window date (previous_was_memento st)
                           (r :: r' :: chain))
      with (accepted window date (previous_was_memento st) r
            && accepted_chain window date
                 (Headers.mem "Memento-Datetime" (headers r)) (r' :: chain))
      in Hacc.
    apply andb_prop in Hacc as [Hacc Haccs].
    cbn [get_memento_loop]. rewrite (get_memento_step_accepted _ _ _ _ _ Hacc).
    unfold follow_next. rewrite Hnext.
    case_bool_decide as Hseen; [reflexivity|].
    rewrite Hsession. rewrite list_last_cons in Hlast.
    apply (IH fuel _ r' target Hchain).
    + exact Haccs.
    + exact Hlast.
    + simpl. destruct Hin as [Hin | [Hin | Hin]].
      * left. apply elem_of_union. now left.
      * left. apply elem_of_union. right. now apply elem_of_singleton.
      * right. exact Hin.
    + simpl in Hfuel |- *. lia.
Qed.

(** C4, as the code has it.  [get_memento] goes on from a response that
    is a memento, or is accepted as the target of a memento's redirect,
    and keeps the URL of every such response.  When the responses of a
    chain are all of this kind and the last of them redirects to the URL
    of a response of the chain (any earlier one, or its own), [get_memento]
    raises [MementoPlaybackError], with a message that says the memento is
    circular.  So does one pass of the loop when the next URL is among the
    URLs kept so far.  The error passes through
    [timestamped_uri_to_version]; and the worker counts a
    [MementoPlaybackError] in [playback], leaving [unknown] and the failure
    queue as they were. *)
Theorem circular_memento_is_playback_error :
  (forall (fuel : nat) (session : requester) (url original_url : string)
          (window : Z) (date : datetime) (r : response)
          (chain : list response) (target : string),
      memento_url_data url = inr (original_url, date) ->
      session url = inr r ->
      redirect_chain session r chain ->
      accepted_chain window date false (r :: chain) = true ->
      next (List.last chain r) = Some target ->
      In target (List.map resp_url (r :: chain)) ->
      (length (r :: chain) <= fuel)%nat ->
      get_memento fuel session url window
      = Some (inl (MementoPlaybackError
                     ("Memento at " +:+ url +:+ " is circular"))))
  /\ (forall (url : string) (window : Z) (date : datetime) (st : memento_state)
             (r : response) (next_url : string),
         next r = Some next_url ->
         next_url ∈ urls st ∪ {[ resp_url r ]} ->
         Headers.mem "Memento-Datetime" (headers r) = true
         \/ playable window date st r = inr true ->
         get_memento_step url window date st r
         = Raise (MementoPlaybackError
                    ("Memento at " +:+ url +:+ " is circular")))
  /\ (forall (U : utils) (fuel : nat) (session : requester) (dt : datetime)
             (uri url : string) (maintainers tags : option (list string))
             (view_url : option string) (msg : string),
         get_memento fuel session uri default_redirect_target_window
         = Some (inl (MementoPlaybackError msg)) ->
         timestamped_uri_to_version U fuel session dt uri url maintainers tags
                                    view_url
         = Some (inl (MementoPlaybackError msg)))
  /\ (forall (has_failure_queue go_slow_and_try_hard : bool)
             (record : CdxRecord) (msg : string) (w : worker_state),
         let w' := worker_handle has_failure_queue go_slow_and_try_hard record
                                 (inl (MementoPlaybackError msg)) w in
         playback (w_summary w') = (playback (w_summary w) + 1)%Z
         /\ unknown (w_summary w') = unknown (w_summary w)
         /\ success (w_summary w') = success (w_summary w)
         /\ missing (w_summary w') = missing (w_summary w)
         /\ w_results w' = w_results w
         /\ w_failures w' = w_failures w).
Proof.
  split; [|split; [|split]].
  - intros fuel session url original_url window date r chain target
      Hdata Hsession Hchain Hacc Hlast Hin Hfuel.
    unfold get_memento. rewrite Hdata, Hsession.
    apply (get_memento_loop_circular session url window date chain fuel
             initial_memento_state r target Hchain Hacc Hlast);
      [right; exact Hin | exact Hfuel].
  - intros url window date st r next_url Hn Hin Hpass.
    unfold get_memento_step.
    destruct (Headers.mem "Memento-Datetime" (headers r)) eqn:Hm.
    + now apply follow_next_circular with (next_url := next_url).
    + destruct Hpass as [Hpass | Hpass]; [discriminate|].
      rewrite Hpass. now apply follow_next_circular with (next_url := next_url).
  - intros. now apply timestamped_uri_to_version_raises.
  - intros. subst w'. simpl. repeat split; reflexivity.
Qed.

Lemma circular_memento_is_playback_error_witness :
  get_memento 10 circular_session memento_A default_redirect_target_window
  = Some (inl (MementoPlaybackError
                 ("Memento at " +:+ memento_A +:+ " is circular")))
  /\ timestamped_uri_to_version sample_utils 10 circular_session
       (cdx_date record_A) memento_A (cdx_url record_A) None None None
     = Some (inl (MementoPlaybackError
                    ("Memento at " +:+ memento_A +:+ " is circular"))).
Proof.
  destruct circular_memento_is_playback_error as (Hrun & _ & Hversion & _).
  assert (Hcircular :
    get_memento 10 circular_session memento_A default_redirect_target_window
    = Some (inl (MementoPlaybackError
                   ("Memento at " +:+ memento_A +:+ " is circular")))).
  { apply (Hrun 10%nat circular_session memento_A "http://a/"
                default_redirect_target_window (cdx_date record_A)
                (redirect_response memento_A true memento_B)
                [redirect_response memento_B true memento_A] memento_A).
    - reflexivity.
    - reflexivity.
    - exists memento_B. split; [reflexivity|]. split; [reflexivity | exact I].
    - reflexivity.
    - reflexivity.
    - left. reflexivity.
    - simpl. lia. }
  split; [exact Hcircular|].
  apply Hversion. exact Hcircular.
Defined.

(** C4, as the claim has it, fails: a worker given the record of a memento
    that redirects to a memento that redirects back ends with 1 in
    [playback] and 0 in [unknown]. *)
Lemma circular_memento_not_unknown :
  get_memento 10 circular_session memento_A default_redirect_target_window
  = Some (inl (MementoPlaybackError
                 ("Memento at " +:+ memento_A +:+ " is circular")))
  /\ load_wayback_records_worker sample_utils 10 (fun _ => circular_session)
       [record_A] [] None None (Some []) false
     = Some {| w_summary := {| total := 1; success := 0; playback := 1;
                               missing := 0; unknown := 0 |};
               w_results := []; w_failures := [] |}.
Proof. split; vm_compute; reflexivity. Qed.

(** [abs(a - b).seconds] is the distance of the two instants in seconds
    modulo the seconds of a day: whole days do not count. *)
Lemma timedelta_seconds_mod_day (a b : datetime) :
  td_seconds (Datetime.abs (Datetime.sub a b))
  = (Z.abs (instant a - instant b) mod 86400)%Z.
Proof.
  unfold Datetime.abs, Datetime.sub, Datetime.normalize, instant. simpl.
  set (d := (Datetime.toordinal a - Datetime.toordinal b)%Z).
  set (x := (Datetime.day_seconds a - Datetime.day_seconds b)%Z).
  replace (Datetime.toordinal a * 86400 + Datetime.day_seconds a
           - (Datetime.toordinal b * 86400 + Datetime.day_seconds b))%Z
    with (d * 86400 + x)%Z by (subst d x; lia).
  pose proof (Z.div_mod x 86400 ltac:(lia)) as Hx.
  pose proof (Z.mod_pos_bound x 86400 ltac:(lia)) as Hb.
  destruct (d + x / 86400 <? 0)%Z eqn:Hneg; simpl.
  - apply Z.ltb_lt in Hneg.
    rewrite Z.abs_neq by lia.
    replace (- (d * 86400 + x))%Z
      with (- (x mod 86400) + (- (d + x / 86400)) * 86400)%Z by lia.
    now rewrite Z.mod_add by lia.
  - apply Z.ltb_ge in Hneg.
    rewrite Z.abs_eq by lia.
    replace (d * 86400 + x)%Z with (x + d * 86400)%Z by lia.
    now rewrite Z.mod_add by lia.
Qed.

(** What the test of [get_memento] compares with the window. *)
Lemma playable_compares_seconds_of_day (window : Z) (date : datetime)
    (st : memento_state) (r : response) (next_url current target : string)
    (target_date : datetime) :
  previous_was_memento st = true ->
  next r = Some next_url ->
  original_url_for_memento (resp_url r) = inr current ->
  memento_url_data next_url = inr (target, target_date) ->
  playable window date st r
  = inr (bool_decide (Py.casefold current = Py.casefold target)
         && (Z.abs (instant target_date - instant date) mod 86400 <=? window)%Z).
Proof.
  intros Hp Hn Hc Ht. unfold playable. rewrite Hp, Hn, Hc, Ht.
  now rewrite timedelta_seconds_mod_day.
Qed.

(** C1.  The memento of [http://a/] of 2020-01-01 redirects to
    [http://A/x]; that URL has no capture of that second and the Wayback
    Machine sends on to its capture of 2021-01-01.  The target is 366
    days, 31622400 seconds, from the requested memento, far more than the
    43200 seconds of [redirect_target_window]; yet the seconds component
    of the difference is 0, the redirect is accepted and [get_memento]
    returns the capture of 2021. *)
Theorem get_memento_accepts_target_a_year_away :
  let requested := {| year := 2020; month := 1; day := 1;
                      hour := 0; minute := 0; second := 0 |} in
  let target := {| year := 2021; month := 1; day := 1;
                   hour := 0; minute := 0; second := 0 |} in
  let st := {| history := [redirect_response memento_A true memento_X_2020];
               urls := {[ memento_A ]};
               previous_was_memento := true |} in
  let r := redirect_response memento_X_2020 false memento_X_2021 in
  memento_url_data memento_A = inr ("http://a/", requested)
  /\ memento_url_data memento_X_2021 = inr ("http://a/x", target)
  /\ Z.abs (instant target - instant requested) = 31622400%Z
  /\ (default_redirect_target_window < 31622400)%Z
  /\ playable default_redirect_target_window requested st r = inr true
  /\ get_memento 10 far_target_session memento_A default_redirect_target_window
     = Some (inr (final_response,
                  [redirect_response memento_A true memento_X_2020; r])).
Proof. repeat split; vm_compute; reflexivity. Qed.

(** * Further properties *)

(** ** The worker's bookkeeping *)

Lemma worker_handle_counts (h g : bool) (record : CdxRecord)
    (o : exn + version) (w : worker_state) :
  let w' := worker_handle h g record o w in
  total (w_summary w') = total (w_summary w)
  /\ counted (w_summary w') = (counted (w_summary w) + 1)%Z
  /\ (success (w_summary w) <= success (w_summary w'))%Z
  /\ (playback (w_summary w) <= playback (w_summary w'))%Z
  /\ (missing (w_summary w) <= missing (w_summary w'))%Z
  /\ (unknown (w_summary w) <= unknown (w_summary w'))%Z
  /\ Z.of_nat (length (w_results w'))
     = (Z.of_nat (length (w_results w))
        + (success (w_summary w') - success (w_summary w)))%Z
  /\ (Z.of_nat (length (w_failures w')) - Z.of_nat (length (w_failures w))
      <= unknown (w_summary w') - unknown (w_summary w))%Z.
Proof.
  unfold worker_handle, counted.
  destruct o as [e|v]; [destruct e|]; simpl;
    try destruct (_ =? 404)%Z; simpl;
    try destruct (h && negb g); simpl;
    rewrite ?length_app; simpl; repeat split; lia.
Qed.


Lemma load_wayback_records_loop_counts (U : utils) (fuel : nat)
    (session : requester) (maintainers tags : option (list string))
    (h g : bool) (records : list CdxRecord) (w w' : worker_state) :
  load_wayback_records_loop U fuel session maintainers tags h g records w
  = Some w' ->
  total (w_summary w')
  = (total (w_summary w) + Z.of_nat (length records))%Z
  /\ counted (w_summary w')
     = (counted (w_summary w) + Z.of_nat (length records))%Z
  /\ (success (w_summary w) <= success (w_summary w'))%Z
  /\ (playback (w_summary w) <= playback (w_summary w'))%Z
  /\ (missing (w_summary w) <= missing (w_summary w'))%Z
  /\ (unknown (w_summary w) <= unknown (w_summary w'))%Z
  /\ Z.of_nat (length (w_results w'))
     = (Z.of_nat (length (w_results w))
        + (success (w_summary w') - success (w_summary w)))%Z
  /\ (Z.of_nat (length (w_failures w')) - Z.of_nat (length (w_failures w))
      <= unknown (w_summary w') - unknown (w_summary w))%Z.
Proof.
  revert w. induction records as [|record records IH]; intros w; simpl.
  - intros [= <-]. repeat split; lia.
  - destruct (timestamped_uri_to_version _ _ _ _ _ _ _ _ _) as [o|];
      [|discriminate].
    intros Hloop. apply IH in Hloop.
    set (w0 := {| w_summary := count_total (w_summary w);
                  w_results := w_results w;
                  w_failures := w_failures w |}) in *.
    pose proof (worker_handle_counts h g record o w0) as Hh.
    cbv zeta in Hh. unfold counted in *. simpl in Hh.
    destruct Hloop as (L1 & L2 & L3 & L4 & L5 & L6 & L7 & L8).
    destruct Hh as (H1 & H2 & H3 & H4 & H5 & H6 & H7 & H8).
    repeat split; lia.
Qed.

(** X1. When a worker ends, its [total] is the number of records it drew,
    every record is counted in exactly one of [success], [playback],
    [missing] and [unknown], the versions it put on the results queue are
    as many as its successes, and the records it put on the failure queue
    are no more than its unknowns. *)
Theorem worker_counts_every_record_once (U : utils) (fuel : nat)
    (wayback : WaybackSession -> requester) (records : list CdxRecord)
    (results_queue : list version) (maintainers tags : option (list string))
    (failure_queue : option (list CdxRecord)) (go_slow_and_try_hard : bool)
    (w : worker_state) :
  load_wayback_records_worker U fuel wayback records results_queue
    maintainers tags failure_queue go_slow_and_try_hard = Some w ->
  let s := w_summary w in
  total s = Z.of_nat (length records)
  /\ (success s + playback s + missing s + unknown s = total s)%Z
  /\ (0 <= success s /\ 0 <= playback s /\ 0 <= missing s /\ 0 <= unknown s)%Z
  /\ Z.of_nat (length (w_results w))
     = (Z.of_nat (length results_queue) + success s)%Z
  /\ (Z.of_nat (length (w_failures w))
      <= Z.of_nat (length (default [] failure_queue)) + unknown s)%Z.
Proof.
  unfold load_wayback_records_worker. intros Hloop.
  apply load_wayback_records_loop_counts in Hloop.
  unfold counted in Hloop. simpl in Hloop.
  destruct Hloop as (L1 & L2 & L3 & L4 & L5 & L6 & L7 & L8).
  cbv zeta. repeat split; lia.
Qed.

Lemma worker_counts_every_record_once_witness :
  exists w,
    load_wayback_records_worker sample_utils 10 (fun _ => far_target_session)
      [record_A; record_A] [] None None (Some []) false = Some w
    /\ total (w_summary w) = 2%Z
    /\ (success (w_summary w) + playback (w_summary w)
        + missing (w_summary w) + unknown (w_summary w) = 2)%Z
    /\ length (w_results w) = 2%nat.
Proof.
  destruct (load_wayback_records_worker sample_utils 10
              (fun _ => far_target_session) [record_A; record_A] [] None None
              (Some []) false) as [w|] eqn:Hw; [|vm_compute in Hw; discriminate].
  exists w. split; [reflexivity|].
  pose proof (worker_counts_every_record_once _ _ _ _ _ _ _ _ _ _ Hw)
    as (H1 & H2 & H3 & H4 & H5).
  simpl length in *.
  assert (Hs : success (w_summary w) = 2%Z).
  { vm_compute in Hw. injection Hw as <-. reflexivity. }
  split; [exact H1|]. split; [lia|]. lia.
Defined.




(** ** The retrying session, further *)

Lemma send_loop_retried (self : WaybackSession) (t : transport)
    (kw : option timeout_value) (total_time maximum : Z) (r : response)
    (n j fuel : nat) :
  (forall i, (i < n)%nat -> retried_outcome (t (j + i)%nat)) ->
  t (j + n)%nat = inr r ->
  should_retry r = false \/ (maximum <= Z.of_nat (j + n))%Z ->
  (Z.of_nat (j + n) <= maximum)%Z ->
  (n < fuel)%nat ->
  send_loop fuel self t kw total_time maximum (Z.of_nat j)
  = Some (inr r, retry_trace kw (backoff self) j n).
Proof.
  revert j fuel. induction n as [|n IH]; intros j fuel Hretried Hr Hstop Hmax Hfuel.
  - destruct fuel as [|fuel]; [lia|].
    rewrite Nat.add_0_r in *.
    apply send_loop_returns; [now rewrite Nat2Z.id|].
    destruct Hstop as [-> | Hge]; [apply orb_true_r|].
    apply orb_true_iff. left. apply Z.geb_le. lia.
  - destruct fuel as [|fuel]; [lia|].
    assert (Hrec : send_loop fuel self t kw total_time maximum (Z.of_nat (S j))
                   = Some (inr r, retry_trace kw (backoff self) (S j) n)).
    { apply IH.
      - intros i Hi. replace (S j + i)%nat with (j + S i)%nat by lia.
        apply Hretried. lia.
      - now replace (S j + n)%nat with (j + S n)%nat by lia.
      - now replace (S j + n)%nat with (j + S n)%nat by lia.
      - lia.
      - lia. }
    pose proof (Hretried 0%nat ltac:(lia)) as H0. rewrite Nat.add_0_r in H0.
    simpl send_loop. rewrite Nat2Z.id.
    replace (Z.of_nat j >=? maximum)%Z with false
      by (symmetry; rewrite Z.geb_leb; apply Z.leb_gt; lia).
    replace (Z.of_nat j + 1)%Z with (Z.of_nat (S j)) by lia.
    rewrite Hrec.
    assert (Htrace :
      Attempt kw ::
        (if (Z.of_nat j >? 0)%Z
         then [Sleep (backoff self * 2 ^ (Z.of_nat j - 1))%Z] else [])
        ++ retry_trace kw (backoff self) (S j) n
      = retry_trace kw (backoff self) j (S n)).
    { simpl retry_trace. destruct j as [|j]; [reflexivity|].
      replace (Z.of_nat (S j) >? 0)%Z with true
        by (symmetry; apply Z.gtb_lt; lia).
      reflexivity. }
    destruct (t j) as [e|r0]; simpl in H0.
    + destruct H0 as [Hh Hre]. rewrite Hh, Hre. simpl negb. cbv iota.
      now rewrite Htrace.
    + rewrite H0. simpl. now rewrite Htrace.
Qed.

(** X3. When the first [k] attempts each end in a retryable error or a
    retryable response, [k] is within the retries, and attempt [k] brings
    a response that is not to be retried, [send] returns that response
    after exactly [k + 1] attempts, having slept nothing before the first
    retry and [backoff * 2 ^ (i - 1)] before retry [i + 1]. *)
Theorem send_returns_after_transient_failures (self : WaybackSession)
    (t : transport) (kw : option timeout_value) (k : nat) (r : response) :
  (Z.of_nat k <= retries self)%Z ->
  (forall i, (i < k)%nat -> retried_outcome (t i)) ->
  t k = inr r ->
  should_retry r = false ->
  exists tr,
    send self t kw = Some (inr r, tr)
    /\ attempts tr = S k
    /\ sleeps_after 0 tr = []
    /\ (forall i, (1 <= i < k)%nat ->
        sleeps_after i tr = [(backoff self * 2 ^ (Z.of_nat i - 1))%Z]).
Proof.
  intros Hk Hretried Hr Hfinal.
  exists (retry_trace (apply_session_timeout self kw) (backoff self) 0 k).
  split.
  - unfold send.
    apply (send_loop_retried self t _ 0 (retries self) r k 0); simpl; auto; lia.
  - split; [apply attempts_retry_trace|]. split.
    + destruct k as [|k]; [reflexivity|].
      now rewrite (sleeps_after_retry_trace _ _ 0 (S k) 0) by lia.
    + intros i Hi. rewrite (sleeps_after_retry_trace _ _ 0 k i) by lia.
      simpl plus. destruct i; [lia | reflexivity].
Qed.

Lemma send_returns_after_transient_failures_witness :
  exists tr,
    send (worker_session false) flaky_transport None
    = Some (inr (sample_response 200 []), tr)
    /\ attempts tr = 4%nat
    /\ sleeps_after 0 tr = []
    /\ sleeps_after 1 tr = [2%Z]
    /\ sleeps_after 2 tr = [4%Z].
Proof.
  destruct (send_returns_after_transient_failures
              (worker_session false) flaky_transport None 3
              (sample_response 200 []))
    as (tr & Hsend & Hn & H0 & Hi).
  - simpl. lia.
  - intros [|[|[|i]]] Hi; simpl; try lia; repeat split; reflexivity.
  - reflexivity.
  - reflexivity.
  - exists tr. split; [exact Hsend|]. split; [exact Hn|]. split; [exact H0|].
    split; [apply (Hi 1%nat) | apply (Hi 2%nat)]; lia.
Defined.

Lemma slept_cons_attempt (kw : option timeout_value) (tr : list event) :
  slept (Attempt kw :: tr) = slept tr.
Proof. reflexivity. Qed.

Lemma slept_app (a b : list event) : slept (a ++ b) = (slept a + slept b)%Z.
Proof.
  induction a as [|e a IH]; simpl; [lia|].
  destruct e; simpl in *; lia.
Qed.

Lemma pow2_step (n : Z) : (0 < n)%Z -> (2 ^ n = 2 * 2 ^ (n - 1))%Z.
Proof.
  intros Hn. replace n with (Z.succ (n - 1)) at 1 by lia.
  apply Z.pow_succ_r. lia.
Qed.

(** What is left to sleep from the counter [n] on. *)
Lemma send_loop_slept (fuel : nat) (self : WaybackSession) (t : transport)
    (kw : option timeout_value) (total_time maximum n : Z)
    (res : exn + response) (tr : list event) :
  (0 <= backoff self)%Z ->
  (0 <= n)%Z ->
  send_loop fuel self t kw total_time maximum n = Some (res, tr) ->
  (0 <= slept tr)%Z
  /\ (slept tr
      <= backoff self * (2 ^ (Z.max (Z.max maximum n) 1 - 1)
                         - 2 ^ (Z.max n 1 - 1)))%Z.
Proof.
  intros Hb. revert n res tr.
  induction fuel as [|fuel IH]; intros n res tr Hn; [discriminate|].
  assert (Hmono : (2 ^ (Z.max n 1 - 1)
                   <= 2 ^ (Z.max (Z.max maximum n) 1 - 1))%Z)
    by (apply Z.pow_le_mono_r; lia).
  assert (Hone : forall o : exn + response,
             Some (o, [Attempt kw]) = Some (res, tr) ->
             (0 <= slept tr)%Z
             /\ (slept tr
                 <= backoff self * (2 ^ (Z.max (Z.max maximum n) 1 - 1)
                                    - 2 ^ (Z.max n 1 - 1)))%Z).
  { intros o [= <- <-]. simpl slept. split; [lia|]. nia. }
  assert (Hagain : (n >=? maximum)%Z = false ->
    match send_loop fuel self t kw total_time maximum (n + 1)%Z with
    | Some (r, tr0) =>
        Some (r, Attempt kw ::
                 (if (n >? 0)%Z then [Sleep (backoff self * 2 ^ (n - 1))%Z]
                  else []) ++ tr0)
    | None => None
    end = Some (res, tr) ->
    (0 <= slept tr)%Z
    /\ (slept tr
        <= backoff self * (2 ^ (Z.max (Z.max maximum n) 1 - 1)
                           - 2 ^ (Z.max n 1 - 1)))%Z).
  { intros Hge. rewrite Z.geb_leb in Hge. apply Z.leb_gt in Hge.
    destruct (send_loop fuel self t kw total_time maximum (n + 1)%Z)
      as [[r0 tr0]|] eqn:Hrec; [|discriminate].
    intros [= <- <-].
    destruct (IH (n + 1)%Z r0 tr0 ltac:(lia) Hrec) as [H0 H1].
    rewrite slept_cons_attempt, slept_app.
    replace (Z.max (Z.max maximum (n + 1)) 1) with maximum in H1 by lia.
    replace (Z.max (Z.max maximum n) 1) with maximum by lia.
    replace (Z.max (n + 1) 1) with (n + 1)%Z in H1 by lia.
    replace (n + 1 - 1)%Z with n in H1 by lia.
    destruct (n >? 0)%Z eqn:Hpos.
    - apply Z.gtb_lt in Hpos.
      replace (Z.max n 1) with n by lia.
      pose proof (pow2_step n Hpos) as Hp.
      assert (0 < 2 ^ (n - 1))%Z by (apply Z.pow_pos_nonneg; lia).
      simpl slept. split; [nia|]. nia.
    - assert (n = 0)%Z by (rewrite Z.gtb_ltb in Hpos; apply Z.ltb_ge in Hpos; lia).
      subst n. simpl slept. simpl in H1. split; [lia|].
      replace (Z.max 0 1 - 1)%Z with 0%Z by lia. simpl. lia. }
  simpl send_loop.
  destruct (t (Z.to_nat n)) as [e|r].
  - destruct (is_handleable_error e); [|apply Hone].
    destruct (n >=? maximum)%Z eqn:Hge; [apply Hone|].
    destruct (negb (should_retry_error e)); [apply Hone | now apply Hagain].
  - destruct (n >=? maximum)%Z eqn:Hge; simpl orb; [apply Hone|].
    destruct (negb (should_retry r)); [apply Hone | now apply Hagain].
Qed.

(** X4. Whatever the transport does, one call of [send] with a
    non-negative [backoff] sleeps at most
    [backoff * (2 ^ (retries - 1) - 1)] seconds in all, and nothing at all
    when [retries] is at most 1. *)
Theorem send_sleeps_at_most (self : WaybackSession) (t : transport)
    (kw : option timeout_value) (res : exn + response) (tr : list event) :
  (0 <= backoff self)%Z ->
  send self t kw = Some (res, tr) ->
  (0 <= slept tr <= backoff self * (2 ^ (Z.max (retries self) 1 - 1) - 1))%Z.
Proof.
  intros Hb Hsend. unfold send in Hsend.
  apply send_loop_slept in Hsend; [|exact Hb|lia].
  replace (Z.max (Z.max (retries self) 0) 1) with (Z.max (retries self) 1)
    in Hsend by lia.
  change (2 ^ (Z.max 0 1 - 1))%Z with 1%Z in Hsend. exact Hsend.
Qed.

Lemma send_sleeps_at_most_witness :
  exists res tr,
    send (worker_session false) always_timeout None = Some (res, tr)
    /\ (0 <= slept tr <= 14)%Z.
Proof.
  destruct (send_terminates (worker_session false) always_timeout None)
    as (res & tr & Hsend).
  exists res, tr. split; [exact Hsend|].
  apply (send_sleeps_at_most (worker_session false) always_timeout None res tr);
    [simpl; lia | exact Hsend].
Defined.

(** X5. With no retries allowed, [send] wraps every handleable error of
    its one attempt in [WaybackRetryError], also a connection error that
    it would not have retried; with retries allowed, a connection error
    whose text names neither [NewConnectionError] nor [Max retries] is
    raised as it is after the first attempt, without a retry. *)
Theorem send_first_attempt_error (self : WaybackSession) (t : transport)
    (kw : option timeout_value) (e : transport_error) :
  t 0%nat = inl e ->
  is_handleable_error e = true ->
  ((retries self <= 0)%Z ->
   send self t kw
   = Some (inl (WaybackRetryError 0 0 e),
           [Attempt (apply_session_timeout self kw)]))
  /\ ((0 < retries self)%Z ->
      should_retry_error e = false ->
      send self t kw
      = Some (inl (Propagated e), [Attempt (apply_session_timeout self kw)])).
Proof.
  intros Ht Hh. unfold send. split.
  - intros Hr. cbn [send_loop]. change (Z.to_nat 0) with 0%nat.
    rewrite Ht, Hh.
    replace (0 >=? retries self)%Z with true
      by (symmetry; apply Z.geb_le; lia).
    reflexivity.
  - intros Hr Hno. cbn [send_loop]. change (Z.to_nat 0) with 0%nat.
    rewrite Ht, Hh, Hno.
    replace (0 >=? retries self)%Z with false
      by (symmetry; rewrite Z.geb_leb; apply Z.leb_gt; lia).
    reflexivity.
Qed.

Lemma send_first_attempt_error_witness :
  send {| retries := 0; backoff := 2; timeout := None |}
       (fun _ => inl reset_error) None
  = Some (inl (WaybackRetryError 0 0 reset_error), [Attempt None])
  /\ send (worker_session false) (fun _ => inl reset_error) None
     = Some (inl (Propagated reset_error),
             [Attempt (Some (TimeoutPair 30.5 2))]).
Proof.
  split.
  - apply (send_first_attempt_error
             {| retries := 0; backoff := 2; timeout := None |}
             (fun _ => inl reset_error) None reset_error);
      [reflexivity | reflexivity | simpl; lia].
  - apply (send_first_attempt_error (worker_session false)
             (fun _ => inl reset_error) None reset_error);
      [reflexivity | reflexivity | simpl; lia | reflexivity].
Defined.

(** ** Fetching mementos, further *)

(** X6. When the response to the requested memento URL has no
    [Memento-Datetime] header, [get_memento] raises, whether or not the
    response redirects and whatever the session would answer to any other
    request: with a non-empty [X-Archive-Wayback-Runtime-Error] header it
    raises [MementoPlaybackError] with the header's text; without one (or
    with an empty one) it raises [HTTPError] when the status is from 400
    to 599, and [MementoPlaybackError] for any other status. *)
Theorem get_memento_first_response_not_memento (fuel : nat)
    (session : requester) (url : string) (window : Z)
    (original_url : string) (original_date : datetime) (r : response) :
  memento_url_data url = inr (original_url, original_date) ->
  session url = inr r ->
  Headers.mem "Memento-Datetime" (headers r) = false ->
  let runtime_error :=
    Headers.get "X-Archive-Wayback-Runtime-Error" (headers r) in
  (forall c m,
      runtime_error = Some (String c m) ->
      get_memento (S fuel) session url window
      = Some (inl (MementoPlaybackError
                     ("Memento at " +:+ url +:+ " could not be played: "
                      +:+ String c m))))
  /\ (runtime_error = None \/ runtime_error = Some EmptyString ->
      (400 <= status_code r < 600)%Z ->
      get_memento (S fuel) session url window
      = Some (inl (HTTPError (status_code r))))
  /\ (runtime_error = None \/ runtime_error = Some EmptyString ->
      ~ (400 <= status_code r < 600)%Z ->
      get_memento (S fuel) session url window
      = Some (inl (MementoPlaybackError
                     ("Memento at " +:+ url +:+ " could not be played")))).
Proof.
  intros Hdata Hsession Hm runtime_error.
  assert (Hraise : get_memento (S fuel) session url window
                   = Some (inl (not_playable_error url r))).
  { unfold get_memento. rewrite Hdata, Hsession. simpl get_memento_loop.
    unfold get_memento_step. rewrite Hm. reflexivity. }
  rewrite Hraise. unfold not_playable_error, ok. fold runtime_error.
  split; [|split].
  - intros c m ->. reflexivity.
  - intros Hnone Hstatus.
    replace ((400 <=? status_code r)%Z && (status_code r <? 600)%Z)
      with true by (symmetry; apply andb_true_intro; split;
                    [apply Z.leb_le | apply Z.ltb_lt]; lia).
    destruct Hnone as [-> | ->]; reflexivity.
  - intros Hnone Hstatus.
    replace ((400 <=? status_code r)%Z && (status_code r <? 600)%Z)
      with false.
    + destruct Hnone as [-> | ->]; reflexivity.
    + symmetry. apply andb_false_iff.
      destruct (Z.leb_spec 400 (status_code r)); [right | left; reflexivity].
      apply Z.ltb_ge. lia.
Qed.

Lemma get_memento_first_response_not_memento_witness :
  get_memento 1 (fun _ => inr (redirect_response memento_A false memento_B))
              memento_A default_redirect_target_window
  = Some (inl (MementoPlaybackError
                 ("Memento at " +:+ memento_A +:+ " could not be played")))
  /\ get_memento 1 (fun _ => inr (sample_response 503 []))
                 memento_A default_redirect_target_window
     = Some (inl (HTTPError 503)).
Proof.
  split.
  - destruct (get_memento_first_response_not_memento 0
                (fun _ => inr (redirect_response memento_A false memento_B))
                memento_A default_redirect_target_window "http://a/"
                (cdx_date record_A)
                (redirect_response memento_A false memento_B))
      as (_ & _ & H); [reflexivity..|].
    apply H; [left; reflexivity | simpl; lia].
  - destruct (get_memento_first_response_not_memento 0
                (fun _ => inr (sample_response 503 []))
                memento_A default_redirect_target_window "http://a/"
                (cdx_date record_A) (sample_response 503 []))
      as (_ & H & _); [reflexivity..|].
    apply H; [left; reflexivity | simpl; lia].
Defined.

Lemma get_memento_step_break (url : string) (window : Z) (date : datetime)
    (st st' : memento_state) (r : response) :
  get_memento_step url window date st r = Break st' ->
  st' = st /\ next r = None /\ is_memento r = true.
Proof.
  unfold get_memento_step, is_memento, follow_next, playable.
  destruct (Headers.mem _ _).
  - destruct (next r); [case_bool_decide; discriminate|].
    intros [= <-]. auto.
  - destruct (previous_was_memento st), (next r) as [n|];
      try discriminate.
    destruct (original_url_for_memento _); [discriminate|].
    destruct (memento_url_data n) as [|[? ?]]; [discriminate|].
    destruct (_ && _); [|discriminate].
    case_bool_decide; discriminate.
Qed.

Lemma get_memento_step_follow (url : string) (window : Z) (date : datetime)
    (st st' : memento_state) (r : response) (next_url : string) :
  get_memento_step url window date st r = Follow st' next_url ->
  next r = Some next_url
  /\ history st' = (history st ++ [r])%list
  /\ previous_was_memento st' = is_memento r
  /\ (is_memento r = true \/ previous_was_memento st = true).
Proof.
  unfold get_memento_step, is_memento, follow_next, playable.
  destruct (Headers.mem _ _).
  - destruct (next r) as [n|]; [|discriminate].
    case_bool_decide; [discriminate|]. intros [= <- <-]. simpl. auto.
  - destruct (previous_was_memento st), (next r) as [n|];
      try discriminate.
    destruct (original_url_for_memento _); [discriminate|].
    destruct (memento_url_data n) as [|[? ?]]; [discriminate|].
    destruct (_ && _); [|discriminate].
    case_bool_decide; [discriminate|]. intros [= <- <-]. simpl. auto.
Qed.

Lemma no_two_misses_snoc (previous : bool) (chain : list response)
    (r : response) :
  no_two_misses previous (chain ++ [r])
  = no_two_misses previous chain
    && (List.last (previous :: List.map is_memento chain) false || is_memento r).
Proof.
  revert previous. induction chain as [|a chain IH]; intros previous; simpl.
  - now rewrite andb_true_r.
  - rewrite IH.
    replace (List.last (previous :: is_memento a :: List.map is_memento chain)
                       false)
      with (List.last (is_memento a :: List.map is_memento chain) false)
      by reflexivity.
    now rewrite andb_assoc.
Qed.

Lemma get_memento_loop_chain (fuel : nat) (session : requester)
    (url : string) (window : Z) (date : datetime) (st : memento_state)
    (r res : response) (hist : list response) :
  get_memento_loop fuel session url window date st r = Some (inr (res, hist)) ->
  no_two_misses false (history st) = true ->
  previous_was_memento st
  = List.last (false :: List.map is_memento (history st)) false ->
  Forall (fun h => next h <> None) (history st) ->
  is_memento res = true
  /\ next res = None
  /\ Forall (fun h => next h <> None) hist
  /\ no_two_misses false (hist ++ [res]) = true
  /\ (length hist < length (history st) + fuel)%nat.
Proof.
  revert st r. induction fuel as [|fuel IH]; intros st r; [discriminate|].
  simpl get_memento_loop.
  destruct (get_memento_step url window date st r) as [st'|st' n|e] eqn:Hstep;
    [| |discriminate].
  - apply get_memento_step_break in Hstep as (-> & Hn & Hm).
    intros [= <- <-] Hchain Hprev Hnext.
    split; [exact Hm|]. split; [exact Hn|]. split; [exact Hnext|].
    split; [|lia].
    rewrite no_two_misses_snoc, Hchain, Hm. now rewrite orb_true_r.
  - apply get_memento_step_follow in Hstep as (Hn & Hh & Hp & Hor).
    destruct (session n) as [e|r']; [discriminate|].
    intros Hloop Hchain Hprev Hnext.
    apply IH in Hloop.
    + destruct Hloop as (H1 & H2 & H3 & H4 & H5).
      rewrite Hh, length_app in H5. simpl in H5.
      repeat split; try assumption. lia.
    + rewrite Hh, no_two_misses_snoc, Hchain, <- Hprev. simpl.
      destruct Hor as [-> | ->]; [apply orb_true_r | reflexivity].
    + rewrite Hh, Hp, List.map_app.
      change (List.map is_memento [r]) with [is_memento r].
      rewrite app_comm_cons. now rewrite List.last_last.
    + rewrite Hh. apply Forall_app. split; [exact Hnext|].
      constructor; [congruence | constructor].
Qed.

(** X7. Whatever the Wayback Machine answers, a response that
    [get_memento] returns carries [Memento-Datetime] and has no onward
    redirect; every response of its history has one; the chain starts with
    a memento and never has two responses in a row that are not mementos;
    and the history is shorter than the number of passes allowed. *)
Theorem get_memento_returns_memento (fuel : nat) (session : requester)
    (url : string) (window : Z) (res : response) (hist : list response) :
  get_memento fuel session url window = Some (inr (res, hist)) ->
  is_memento res = true
  /\ next res = None
  /\ Forall (fun h => next h <> None) hist
  /\ no_two_misses false (hist ++ [res]) = true
  /\ (length hist < fuel)%nat.
Proof.
  unfold get_memento.
  destruct (memento_url_data url) as [e|[o d]]; [discriminate|].
  destruct (session url) as [e|r]; [discriminate|].
  intros Hloop.
  apply get_memento_loop_chain in Hloop;
    [exact Hloop | reflexivity | reflexivity | constructor].
Qed.

Lemma get_memento_returns_memento_witness :
  exists res hist,
    get_memento 10 far_target_session memento_A default_redirect_target_window
    = Some (inr (res, hist))
    /\ is_memento res = true /\ next res = None
    /\ length hist = 2%nat
    /\ no_two_misses false (hist ++ [res]) = true.
Proof.
  exists final_response,
    [redirect_response memento_A true memento_X_2020;
     redirect_response memento_X_2020 false memento_X_2021].
  assert (H : get_memento 10 far_target_session memento_A
                default_redirect_target_window
              = Some (inr (final_response,
                   [redirect_response memento_A true memento_X_2020;
                    redirect_response memento_X_2020 false memento_X_2021])))
    by (vm_compute; reflexivity).
  split; [exact H|].
  destruct (get_memento_returns_memento _ _ _ _ _ _ H) as (H1 & H2 & _ & H4 & _).
  split; [exact H1|]. split; [exact H2|]. split; [reflexivity | exact H4].
Defined.

(** ** Memento URLs, further *)

Lemma all_chars_not_empty_head (p : ascii -> bool) (s : string) :
  s <> EmptyString -> Py.all_chars p s = true ->
  exists c s', s = String c s' /\ p c = true.
Proof.
  destruct s as [|c s]; [congruence|]. intros _ H. simpl in H.
  apply andb_prop in H as [Hc _]. eauto.
Qed.

Lemma MEMENTO_URL_PATTERN_match_prefix (rest : string) :
  MEMENTO_URL_PATTERN_match ("http://web.archive.org/web/" +:+ rest)
  = (let (timestamp, r) := Py.span Py.is_digit rest in
     if decide (timestamp = EmptyString) then None else
     let r := default r (Py.strip_prefix "id_" r) in
     r ← Py.strip_prefix "/" r;
     let (url, r) := Py.span not_LF r in
     if decide (url = EmptyString) then None else
     _ ← Py.dollar r;
     Some (timestamp, url)).
Proof. reflexivity. Qed.

Lemma MEMENTO_URL_PATTERN_match_composed (id : bool) (timestamp url : string) :
  timestamp <> EmptyString ->
  Py.all_chars Py.is_digit timestamp = true ->
  url <> EmptyString ->
  Py.all_chars not_LF url = true ->
  MEMENTO_URL_PATTERN_match
    ("http://web.archive.org/web/" +:+ timestamp
     +:+ (if id then "id_/" else "/") +:+ url)
  = Some (timestamp, url).
Proof.
  intros Hts Hdigits Hurl Hlf.
  rewrite MEMENTO_URL_PATTERN_match_prefix.
  rewrite (span_app_stop Py.is_digit timestamp
             ((if id then "id_/" else "/") +:+ url) Hdigits)
    by (destruct id; reflexivity).
  destruct (decide (timestamp = EmptyString)) as [E|_]; [congruence|].
  cbv zeta.
  replace (default ((if id then "id_/" else "/") +:+ url)
             (Py.strip_prefix "id_" ((if id then "id_/" else "/") +:+ url)))
    with ("/" +:+ url) by (destruct id; reflexivity).
  rewrite (strip_prefix_app "/" url).
  change (Some url ≫= ?f) with (f url). cbv beta.
  rewrite (span_all not_LF url Hlf).
  destruct (decide (url = EmptyString)) as [E|_]; [congruence|].
  reflexivity.
Qed.

(** X8. A memento URL composed from either archive template, with a
    timestamp of one or more digits and a URL that is not empty and has no
    line feed, splits back into that URL and that timestamp; with a
    timestamp that [strptime] reads, [memento_url_data] gives the cleaned
    URL and the date. *)
Theorem split_memento_url_of_templates (timestamp url : string) :
  timestamp <> EmptyString ->
  Py.all_chars Py.is_digit timestamp = true ->
  url <> EmptyString ->
  Py.all_chars not_LF url = true ->
  split_memento_url (ARCHIVE_RAW_URL_TEMPLATE_format timestamp url)
  = inr (url, timestamp)
  /\ split_memento_url (ARCHIVE_VIEW_URL_TEMPLATE_format timestamp url)
     = inr (url, timestamp)
  /\ original_url_for_memento (ARCHIVE_RAW_URL_TEMPLATE_format timestamp url)
     = inr (clean_memento_url_component url)
  /\ (forall date, Datetime.strptime timestamp = Some date ->
      memento_url_data (ARCHIVE_RAW_URL_TEMPLATE_format timestamp url)
      = inr (clean_memento_url_component url, date)).
Proof.
  intros Hts Hdigits Hurl Hlf.
  pose proof (MEMENTO_URL_PATTERN_match_composed true timestamp url
                Hts Hdigits Hurl Hlf) as Hraw.
  pose proof (MEMENTO_URL_PATTERN_match_composed false timestamp url
                Hts Hdigits Hurl Hlf) as Hview.
  unfold original_url_for_memento, memento_url_data, split_memento_url,
    ARCHIVE_RAW_URL_TEMPLATE_format, ARCHIVE_VIEW_URL_TEMPLATE_format.
  rewrite Hraw, Hview. repeat split.
  intros date Hdate. now rewrite Hdate.
Qed.

Lemma split_memento_url_of_templates_witness :
  split_memento_url
    (ARCHIVE_RAW_URL_TEMPLATE_format "20170813195036"
       "https://arpa-e.energy.gov/?q=engage/events-workshops")
  = inr ("https://arpa-e.energy.gov/?q=engage/events-workshops",
         "20170813195036")
  /\ split_memento_url
       (ARCHIVE_VIEW_URL_TEMPLATE_format "20170813195036"
          "https://arpa-e.energy.gov/?q=engage/events-workshops")
     = inr ("https://arpa-e.energy.gov/?q=engage/events-workshops",
            "20170813195036").
Proof.
  destruct (split_memento_url_of_templates "20170813195036"
              "https://arpa-e.energy.gov/?q=engage/events-workshops")
    as (H1 & H2 & _); [discriminate | reflexivity | discriminate | reflexivity|].
  split; [exact H1 | exact H2].
Defined.

(** ** Malformed URLs *)











Lemma EMAILISH_URL_match_prefix (https : bool) (body : string) :
  EMAILISH_URL_match ((if https then "https://" else "http://") +:+ body)
  = (let (_, r) := Py.span (fun c => Ascii.eqb c "<") body in
     Py.startswith "mailto:" r
     || let (_, r') := Py.span not_slash_at_colon r in Py.startswith "@" r').
Proof. destruct https; reflexivity. Qed.

(** Within a run of characters of the class [q], a span by a narrower
    class [p] stops inside the run. *)
Lemma span_inside (p q : ascii -> bool) (a b : string) :
  (forall c, p c = true -> q c = true) ->
  Py.all_chars q a = true ->
  match b with EmptyString => True | String c _ => p c = false end ->
  exists a1 a2,
    Py.span p (a +:+ b) = (a1, a2 +:+ b) /\ Py.all_chars q a2 = true.
Proof.
  intros Hpq. induction a as [|c a IH]; intros Ha Hb.
  - exists EmptyString, EmptyString. split; [|reflexivity].
    destruct b as [|c b]; [reflexivity|]. simpl. now rewrite Hb.
  - simpl in Ha. apply andb_prop in Ha as [Hc Ha].
    destruct (IH Ha Hb) as (a1 & a2 & Hspan & Hq).
    simpl. destruct (p c) eqn:Hp.
    + rewrite Hspan. exists (String c a1), a2. split; [reflexivity | exact Hq].
    + exists EmptyString, (String c a). split; [reflexivity|].
      simpl. now rewrite Hc, Ha.
Qed.

Lemma is_malformed_url_of_emailish (url : string) :
  EMAILISH_URL_match url = true -> is_malformed_url url = true.
Proof.
  intros H. unfold is_malformed_url. rewrite H.
  destruct (DATA_URL_START_search url); [reflexivity|].
  now rewrite orb_true_r.
Qed.

(** X10. A URL is taken for malformed whenever, after [http://] or
    [https://], it has a user part, one or more characters none of which
    is [/], [@] or [:] (or no character at all), followed by [@]; whenever
    it has there any number of [<] followed by [mailto:]; and whenever it
    starts with [mailto:]. *)
Theorem is_malformed_url_catches_emailish :
  (forall (https : bool) (user rest : string),
      Py.all_chars not_slash_at_colon user = true ->
      is_malformed_url ((if https then "https://" else "http://")
                        +:+ user +:+ "@" +:+ rest) = true)
  /\ (forall (https : bool) (lts rest : string),
         Py.all_chars (fun c => Ascii.eqb c "<") lts = true ->
         is_malformed_url ((if https then "https://" else "http://")
                           +:+ lts +:+ "mailto:" +:+ rest) = true)
  /\ (forall rest : string, is_malformed_url ("mailto:" +:+ rest) = true).
Proof.
  split; [|split].
  - intros https user rest Huser. apply is_malformed_url_of_emailish.
    rewrite EMAILISH_URL_match_prefix.
    destruct (span_inside (fun c => Ascii.eqb c "<") not_slash_at_colon
                user ("@" +:+ rest)) as (a1 & a2 & Hspan & Hq).
    + intros c Hc. apply Ascii.eqb_eq in Hc. subst c. reflexivity.
    + exact Huser.
    + reflexivity.
    + rewrite Hspan.
      rewrite (span_app_stop not_slash_at_colon a2 ("@" +:+ rest) Hq)
        by reflexivity.
      apply orb_true_r.
  - intros https lts rest Hlts. apply is_malformed_url_of_emailish.
    rewrite EMAILISH_URL_match_prefix.
    rewrite (span_app_stop _ lts ("mailto:" +:+ rest) Hlts) by reflexivity.
    reflexivity.
  - intros rest. unfold is_malformed_url.
    destruct (DATA_URL_START_search _); reflexivity.
Qed.

Lemma is_malformed_url_catches_emailish_witness :
  is_malformed_url ("http://" +:+ "b***z" +:+ "@" +:+ "pnnl.gov/") = true
  /\ is_malformed_url ("http://" +:+ "<<" +:+ "mailto:"
                       +:+ "first.last@pnnl.gov>>/") = true.
Proof.
  destruct is_malformed_url_catches_emailish as (Huser & Hmailto & _).
  split.
  - apply (Huser false "b***z" "pnnl.gov/"). reflexivity.
  - apply (Hmailto false "<<" "first.last@pnnl.gov>>/"). reflexivity.
Defined.

(** ** CDX records *)

Lemma split_char_length (sep : ascii) (s : string) :
  length (split_char sep s) = S (count_char sep s).
Proof.
  induction s as [|c s IH]; [reflexivity|]. simpl.
  destruct (Ascii.eqb c sep); simpl; [now rewrite IH|].
  destruct (split_char sep s); simpl in *; lia.
Qed.

Lemma split_char_no_sep (sep : ascii) (s : string) :
  Forall (fun field => Py.all_chars (fun c => negb (Ascii.eqb c sep)) field
                       = true)
         (split_char sep s).
Proof.
  induction s as [|c s IH]; simpl.
  - constructor; [reflexivity | constructor].
  - destruct (Ascii.eqb c sep) eqn:E.
    + constructor; [reflexivity | exact IH].
    + destruct (split_char sep s) as [|field fields].
      * constructor; [simpl; now rewrite E | constructor].
      * inversion IH as [|? ? Hf Hfs]; subst.
        constructor; [simpl; now rewrite E, Hf | exact Hfs].
Qed.

(** X11. Of a line that has been decoded to [text], the [try] block of
    [search] accepts the text only if it has exactly six spaces, so seven
    fields, and [strptime] reads its second field; for every other text it
    raises [UnexpectedResponseFormat], and the exception carries the text.
    (The decoding itself comes before the [try] block.) *)
Theorem parse_cdx_line_accepts (skip_malformed_results : bool) (text : string) :
  (forall e, parse_cdx_line skip_malformed_results text = inl e ->
             e = UnexpectedResponseFormat text)
  /\ (forall o, parse_cdx_line skip_malformed_results text = inr o ->
                count_char " " text = 6%nat
                /\ exists timestamp date,
                     nth_error (split_char " " text) 1 = Some timestamp
                     /\ Datetime.strptime timestamp = Some date)
  /\ (count_char " " text <> 6%nat ->
      parse_cdx_line skip_malformed_results text
      = inl (UnexpectedResponseFormat text)).
Proof.
  pose proof (split_char_length " " text) as Hlen.
  unfold parse_cdx_line.
  destruct (split_char " " text)
    as [|f1 [|f2 [|f3 [|f4 [|f5 [|f6 [|f7 [|f8 fs]]]]]]]];
    simpl in Hlen;
    try (split; [intros e [= <-]; reflexivity
                | split; [intros o; discriminate | reflexivity]]).
  destruct (Datetime.strptime f2) as [date|] eqn:Hdate.
  - split; [|split].
    + intros e. destruct (_ && _); discriminate.
    + intros o _. split; [lia|]. exists f2, date. split; [reflexivity | exact Hdate].
    + intros Hne. lia.
  - split; [intros e [= <-]; reflexivity|].
    split; [intros o; discriminate | reflexivity].
Qed.

Lemma parse_cdx_line_accepts_witness :
  count_char " " sample_line = 6%nat
  /\ exists timestamp date,
       nth_error (split_char " " sample_line) 1 = Some timestamp
       /\ Datetime.strptime timestamp = Some date.
Proof.
  destruct (parse_cdx_line_accepts true sample_line) as (_ & Hok & _).
  destruct (parse_cdx_line true sample_line) as [e|o] eqn:Hparse;
    [vm_compute in Hparse; discriminate|].
  exact (Hok o eq_refl).
Defined.

Lemma parse_cdx_line_synthesized (skip_malformed_results : bool)
    (text : string) (r : CdxRecord) :
  parse_cdx_line skip_malformed_results text = inr (Some r) ->
  synthesized r
  /\ (skip_malformed_results = true -> is_malformed_url (cdx_url r) = false)
  /\ Py.all_chars (fun c => negb (Ascii.eqb c " ")) (cdx_timestamp r) = true.
Proof.
  pose proof (split_char_no_sep " " text) as Hsep.
  unfold parse_cdx_line.
  destruct (split_char " " text)
    as [|f1 [|f2 [|f3 [|f4 [|f5 [|f6 [|f7 [|f8 fs]]]]]]]]; try discriminate.
  destruct (Datetime.strptime f2) as [date|] eqn:Hdate; [|discriminate].
  destruct (skip_malformed_results && is_malformed_url (clean_url f3)) eqn:Hskip;
    [discriminate|].
  intros [= <-]. unfold synthesized. simpl.
  split; [repeat split; eauto|]. split.
  - intros ->. exact Hskip.
  - inversion Hsep as [|? ? _ Hsep']; subst.
    inversion Hsep' as [|? ? H2 _]; subst. exact H2.
Qed.

Lemma consumed_refl (s : string) : consumed s s.
Proof. exists EmptyString. split; reflexivity. Qed.

Lemma all_chars_app (p : ascii -> bool) (a b : string) :
  Py.all_chars p (a +:+ b) = Py.all_chars p a && Py.all_chars p b.
Proof.
  induction a as [|c a IH]; simpl; [reflexivity|].
  now rewrite IH, andb_assoc.
Qed.

Lemma consumed_trans (s r q : string) :
  consumed s r -> consumed r q -> consumed s q.
Proof.
  intros (p1 & -> & H1) (p2 & -> & H2). exists (p1 +:+ p2).
  split; [now rewrite string_app_assoc|].
  now rewrite all_chars_app, H1, H2.
Qed.

Lemma consumed_digit (a : ascii) (r : string) :
  Py.is_digit a = true -> consumed (String a r) r.
Proof.
  intros Ha. exists (String a EmptyString). split; [reflexivity|].
  simpl. unfold digit_or_space. now rewrite Ha.
Qed.

Lemma two_digits_consumed (ok : Z -> Z -> bool) (s r : string) (v : Z) :
  In (v, r) (Datetime.two_digits ok s) -> consumed s r.
Proof.
  unfold Datetime.two_digits.
  destruct s as [|a [|b s]]; try (intros []).
  destruct (Py.is_digit a) eqn:Ha; [|intros []].
  destruct (Py.is_digit b) eqn:Hb; [|intros []].
  simpl. destruct (ok _ _); [|intros []].
  intros [[= _ <-]|[]].
  apply consumed_trans with (r := String b s); now apply consumed_digit.
Qed.

Lemma one_digit_consumed (ok : Z -> bool) (s r : string) (v : Z) :
  In (v, r) (Datetime.one_digit ok s) -> consumed s r.
Proof.
  unfold Datetime.one_digit.
  destruct s as [|a s]; [intros []|].
  destruct (Py.is_digit a) eqn:Ha; [|intros []].
  simpl. destruct (ok _); [|intros []].
  intros [[= _ <-]|[]]. now apply consumed_digit.
Qed.

Lemma directive_consumed (s r : string) (v : Z) :
  In (v, r) (Datetime.dir_m s) \/ In (v, r) (Datetime.dir_d s)
  \/ In (v, r) (Datetime.dir_H s) \/ In (v, r) (Datetime.dir_M s)
  \/ In (v, r) (Datetime.dir_S s) ->
  consumed s r.
Proof.
  unfold Datetime.dir_m, Datetime.dir_d, Datetime.dir_H, Datetime.dir_M,
    Datetime.dir_S.
  intros H.
  repeat (destruct H as [H | H]);
    repeat (apply in_app_or in H as [H | H]);
    eauto using two_digits_consumed, one_digit_consumed.
  destruct s as [|a s]; [destruct H|].
  destruct (Ascii.eqb a " ") eqn:Ea.
  - apply Ascii.eqb_eq in Ea. subst a.
    apply consumed_trans with (r := s); [|eauto using one_digit_consumed].
    exists " ". split; reflexivity.
  - destruct a as [[] [] [] [] [] [] [] []]; try destruct H; discriminate.
Qed.

Lemma dir_Y_consumed (s r : string) (v : Z) :
  In (v, r) (Datetime.dir_Y s) -> consumed s r /\ s <> EmptyString.
Proof.
  unfold Datetime.dir_Y.
  destruct s as [|a [|b [|c [|d s]]]]; try (intros []).
  destruct (Py.is_digit a) eqn:Ha; [|intros []].
  destruct (Py.is_digit b) eqn:Hb; [|intros []].
  destruct (Py.is_digit c) eqn:Hc; [|intros []].
  destruct (Py.is_digit d) eqn:Hd; [|intros []].
  simpl. intros [[= _ <-]|[]]. split; [|discriminate].
  repeat (eapply consumed_trans; [apply consumed_digit; eassumption|]).
  apply consumed_refl.
Qed.

Lemma format_matches_consumed (s r : string) (t : datetime) :
  In (t, r) (Datetime.format_matches s) -> consumed s r /\ s <> EmptyString.
Proof.
  unfold Datetime.format_matches. intros H.
  apply in_flat_map in H as ([Y r1] & HY & H).
  apply in_flat_map in H as ([m r2] & Hm & H).
  apply in_flat_map in H as ([d r3] & Hd & H).
  apply in_flat_map in H as ([h r4] & Hh & H).
  apply in_flat_map in H as ([mi r5] & Hmi & H).
  apply in_map_iff in H as ([sec r6] & [= _ ->] & Hs).
  apply dir_Y_consumed in HY as [HY Hne]. split; [|exact Hne].
  eapply consumed_trans; [exact HY|].
  eapply consumed_trans; [apply (directive_consumed _ _ m); eauto|].
  eapply consumed_trans; [apply (directive_consumed _ _ d); eauto|].
  eapply consumed_trans; [apply (directive_consumed _ _ h); eauto|].
  eapply consumed_trans; [apply (directive_consumed _ _ mi); eauto|].
  apply (directive_consumed _ _ sec); eauto 6.
Qed.

(** A timestamp that [strptime] reads is made of digits and spaces. *)
Lemma strptime_digits (timestamp : string) (date : datetime) :
  Datetime.strptime timestamp = Some date ->
  timestamp <> EmptyString
  /\ Py.all_chars digit_or_space timestamp = true.
Proof.
  unfold Datetime.strptime.
  destruct (Datetime.format_matches timestamp) as [|[t r] l] eqn:Hm;
    [discriminate|].
  destruct r; [|discriminate]. intros _.
  assert (Hin : In (t, EmptyString) (Datetime.format_matches timestamp))
    by (rewrite Hm; now left).
  apply format_matches_consumed in Hin as [(pre & -> & Hpre) Hne].
  split; [exact Hne|]. now rewrite string_app_empty_r.
Qed.

Lemma all_chars_and (p q : ascii -> bool) (s : string) :
  Py.all_chars p s = true -> Py.all_chars q s = true ->
  Py.all_chars (fun c => p c && q c) s = true.
Proof.
  induction s as [|c s IH]; simpl; [reflexivity|].
  intros Hp Hq. apply andb_prop in Hp as [Hp1 Hp2].
  apply andb_prop in Hq as [Hq1 Hq2]. now rewrite Hp1, Hq1, IH.
Qed.

(** X12. The [raw_url] that [search] gives a record parses back: for a
    record made from a line, with a URL that is not empty and has no line
    feed, [memento_url_data] of its [raw_url] is its URL, cleaned, and its
    date, so that fetching the record never fails on its own URL. *)
Theorem parsed_record_raw_url_round_trip (skip_malformed_results : bool)
    (text : string) (r : CdxRecord) :
  parse_cdx_line skip_malformed_results text = inr (Some r) ->
  cdx_url r <> EmptyString ->
  Py.all_chars not_LF (cdx_url r) = true ->
  memento_url_data (cdx_raw_url r)
  = inr (clean_memento_url_component (cdx_url r), cdx_date r)
  /\ original_url_for_memento (cdx_view_url r)
     = inr (clean_memento_url_component (cdx_url r)).
Proof.
  intros Hparse Hurl Hlf.
  apply parse_cdx_line_synthesized in Hparse
    as ((Hdate & Hraw & Hview & _) & _ & Hnospace).
  destruct (strptime_digits _ _ Hdate) as [Hne Hds].
  assert (Hdigits : Py.all_chars Py.is_digit (cdx_timestamp r) = true).
  { eapply all_chars_impl;
      [|exact (all_chars_and _ _ _ Hds Hnospace)].
    intros c Hc. unfold digit_or_space in Hc.
    destruct (Py.is_digit c); [reflexivity|].
    destruct (Ascii.eqb c " "); discriminate. }
  pose proof (MEMENTO_URL_PATTERN_match_composed true _ _
                Hne Hdigits Hurl Hlf) as Hm1.
  pose proof (MEMENTO_URL_PATTERN_match_composed false _ _
                Hne Hdigits Hurl Hlf) as Hm2.
  rewrite Hraw, Hview.
  unfold memento_url_data, original_url_for_memento, split_memento_url,
    ARCHIVE_RAW_URL_TEMPLATE_format, ARCHIVE_VIEW_URL_TEMPLATE_format.
  rewrite Hm1, Hm2, Hdate. split; reflexivity.
Qed.

Lemma parsed_record_raw_url_round_trip_witness :
  exists r,
    parse_cdx_line true sample_line = inr (Some r)
    /\ cdx_url r = "http://example.com/"
    /\ memento_url_data (cdx_raw_url r)
       = inr ("http://example.com/", cdx_date r).
Proof.
  destruct (parse_cdx_line true sample_line) as [e|[r|]] eqn:Hparse;
    try (vm_compute in Hparse; discriminate).
  exists r. split; [reflexivity|].
  assert (Hu : cdx_url r = "http://example.com/")
    by (vm_compute in Hparse; injection Hparse as <-; reflexivity).
  split; [exact Hu|].
  destruct (parsed_record_raw_url_round_trip true sample_line r Hparse)
    as [H _].
  - rewrite Hu. discriminate.
  - rewrite Hu. reflexivity.
  - rewrite H, Hu. reflexivity.
Defined.

(** ** The search generator *)

Lemma search_lines_counts (next_page : string -> option (generated CdxRecord Z))
    (skip : bool) (lines : list string) (count : Z)
    (records : list CdxRecord) (ending : gen_failure + Z) :
  (forall key rs e, next_page key = Some (rs, e) ->
     Forall synthesized rs
     /\ forall n, e = inr n -> n = Z.of_nat (length rs)) ->
  search_lines next_page skip lines count = Some (records, ending) ->
  Forall synthesized records
  /\ forall n, ending = inr n -> n = (count + Z.of_nat (length records))%Z.
Proof.
  intros Hnext. revert count records ending.
  induction lines as [|text lines IH]; intros count records ending; simpl.
  - intros [= <- <-]. split; [constructor|]. intros n [= <-]. simpl. lia.
  - destruct (String.eqb text EmptyString).
    + destruct lines as [|key lines'].
      * intros [= <- <-]. split; [constructor | discriminate].
      * destruct (next_page key) as [[rs [f|n0]]|] eqn:Hpage; try discriminate.
        -- intros [= <- <-]. apply Hnext in Hpage as [H _].
           split; [exact H | discriminate].
        -- intros [= <- <-]. apply Hnext in Hpage as [H Hn].
           split; [exact H|]. intros n [= <-]. now rewrite (Hn n0 eq_refl).
    + destruct (parse_cdx_line skip text) as [e|[data|]] eqn:Hparse.
      * intros [= <- <-]. split; [constructor | discriminate].
      * destruct (search_lines next_page skip lines (count + 1)%Z)
          as [[rs e]|] eqn:Hrest; [|discriminate].
        intros [= <- <-]. apply IH in Hrest as [H Hn].
        apply parse_cdx_line_synthesized in Hparse as [Hs _].
        split; [constructor; assumption|].
        intros n Hend. rewrite (Hn n Hend). simpl length. lia.
      * apply IH.
Qed.

(** X13. However many pages the resume keys lead through, and however
    the generator of [search] ends, every record it yields has the date
    that [strptime] reads from its timestamp and the [raw_url] and
    [view_url] of the two archive templates; and when the generator
    returns, the value it returns is the number of records it yielded. *)
Theorem search_returns_count (fuel : nat) (cdx : cdx_server)
    (a : search_args) (records : list CdxRecord) (ending : gen_failure + Z) :
  search fuel cdx a = Some (records, ending) ->
  Forall synthesized records
  /\ forall n, ending = inr n -> n = Z.of_nat (length records).
Proof.
  revert a records ending. induction fuel as [|fuel IH];
    intros a records ending; [discriminate|].
  simpl. destruct (search_final_query a) as [e|final_query].
  - intros [= <- <-]. split; [constructor | discriminate].
  - destruct (cdx final_query) as [e|lines].
    + intros [= <- <-]. split; [constructor | discriminate].
    + intros H. apply search_lines_counts in H; [exact H|].
      intros key rs e Hpage. exact (IH _ _ _ Hpage).
Qed.

Lemma search_returns_count_witness :
  exists records,
    search 5 two_page_server (search_defaults "http://example.com/*")
    = Some (records, inr 3%Z)
    /\ length records = 3%nat
    /\ Forall synthesized records.
Proof.
  destruct (search 5 two_page_server (search_defaults "http://example.com/*"))
    as [[records ending]|] eqn:Hs; [|vm_compute in Hs; discriminate].
  destruct (search_returns_count _ _ _ _ _ Hs) as [Hsyn Hn].
  assert (Hend : ending = inr 3%Z)
    by (vm_compute in Hs; injection Hs as _ <-; reflexivity).
  exists records. rewrite Hend. split; [reflexivity|].
  split; [|exact Hsyn]. specialize (Hn 3%Z Hend). lia.
Defined.

(** X14. In a call of [search] without extra keywords, the call for the
    next page repeats the query of this call with only [resumeKey]
    replaced by the resume key; its three renamed parameters travel as
    extra keywords; and it filters malformed results, because
    [skip_malformed_results] is not part of the query, whatever the caller
    asked for. *)
Theorem search_next_page_query (a : search_args) (key : string) :
  kwargs a = [] ->
  search_query (next_args a key)
  = Dict.set "resumeKey" (PStr key) (search_query a)
  /\ kwargs (next_args a key)
     = [("from", from_date a); ("to", to_date a); ("filter", filter_field a)]
  /\ skip_malformed_results (next_args a key) = PBool true.
Proof.
  intros Hkw. unfold next_args, search_query. rewrite Hkw.
  repeat split; reflexivity.
Qed.

Lemma search_next_page_query_witness :
  let a := {|
    url := PStr "http://example.com/*"; matchType := PNone; limit := PNone;
    offset := PNone; fastLatest := PNone; gzip := PNone;
    from_date := PDatetime (cdx_date record_A); to_date := PNone;
    filter_field := PNone; collapse := PStr "digest";
    showResumeKey := PBool true; resumeKey := PNone; page := PNone;
    pageSize := PNone; resolveRevisits := PBool true;
    skip_malformed_results := PBool false; kwargs := [] |} in
  search_final_query (next_args a "RESUME_XYZ")
  = inr [("url", "http://example.com/*"); ("from", "20200101000000");
         ("collapse", "digest"); ("showResumeKey", "true");
         ("resumeKey", "RESUME_XYZ"); ("resolveRevisits", "true")]
  /\ skip_malformed_results (next_args a "RESUME_XYZ") = PBool true.
Proof.
  cbv zeta.
  match goal with
  | |- search_final_query (next_args ?a ?k) = _ /\ _ =>
      destruct (search_next_page_query a k eq_refl) as (Hq & _ & Hskip)
  end.
  split; [|exact Hskip].
  unfold search_final_query. rewrite Hq. reflexivity.
Defined.

(** ** The query, further *)

Lemma dict_get_set {V} (k k' : string) (v : V) (d : Dict.t V) :
  Dict.get k (Dict.set k' v d)
  = if String.eqb k' k then Some v else Dict.get k d.
Proof.
  induction d as [|[k0 v0] d IH]; simpl.
  - reflexivity.
  - destruct (String.eqb k0 k') eqn:E0; simpl.
    + apply String.eqb_eq in E0. subst k0.
      destruct (String.eqb k' k); reflexivity.
    + destruct (String.eqb k0 k) eqn:E1; [|exact IH].
      apply String.eqb_eq in E1. subst k0.
      now rewrite String.eqb_sym, E0.
Qed.

Lemma dict_get_in {V} (k : string) (v : V) (d : Dict.t V) :
  Dict.get k d = Some v -> In (k, v) d.
Proof.
  induction d as [|[k0 v0] d IH]; simpl; [discriminate|].
  destruct (String.eqb k0 k) eqn:E.
  - apply String.eqb_eq in E. subst k0. intros [= ->]. now left.
  - intros H. right. auto.
Qed.

Lemma dict_set_keys {V} (k k' : string) (v : V) (d : Dict.t V) :
  In k (List.map fst (Dict.set k' v d))
  <-> k = k' \/ In k (List.map fst d).
Proof.
  induction d as [|[k0 v0] d IH]; simpl.
  - intuition.
  - destruct (String.eqb k0 k') eqn:E; simpl.
    + apply String.eqb_eq in E. subst k0. intuition.
    + rewrite IH. intuition.
Qed.

Lemma dict_update_keys {V} (k : string) (d e : Dict.t V) :
  In k (List.map fst (Dict.update d e))
  <-> In k (List.map fst d) \/ In k (List.map fst e).
Proof.
  unfold Dict.update. revert d.
  induction e as [|[k0 v0] e IH]; intros d; simpl.
  - intuition.
  - rewrite IH, dict_set_keys. intuition.
Qed.

Lemma search_final_query_loop_unsupported (items : Dict.t pyval)
    (acc : Dict.t string) (k : string) :
  In k (List.map fst items) -> k ∈ unsupported ->
  exists k', k' ∈ unsupported
    /\ search_final_query_loop items acc
       = inl (ValueError ("The " +:+ k' +:+ " argument is not supported")).
Proof.
  revert acc. induction items as [|[k0 v0] items IH]; intros acc; simpl.
  - intros [].
  - intros Hin Hk. case_bool_decide as Hk0; [eauto|].
    destruct Hin as [-> | Hin]; [contradiction|]. now apply IH.
Qed.

Lemma search_final_query_loop_sends (items : Dict.t pyval)
    (acc q : Dict.t string) (k s : string) :
  search_final_query_loop items acc = inr q ->
  Dict.get k q = Some s ->
  Dict.get k acc = Some s
  \/ (k ∉ unsupported)
     /\ exists v, In (k, v) items /\ v <> PNone /\ s = wire_value v.
Proof.
  revert acc. induction items as [|[k0 v0] items IH]; intros acc; simpl.
  - intros [= <-]. auto.
  - case_bool_decide as Hk0; [discriminate|].
    intros Hloop Hget.
    destruct (IH _ Hloop Hget) as [Hacc | (Hk & v & Hin & Hv & Hs)].
    + assert (Hstep : forall w, w = wire_value v0 -> v0 <> PNone ->
                Dict.get k (Dict.set k0 w acc) = Some s ->
                Dict.get k acc = Some s
                \/ (k ∉ unsupported)
                   /\ exists v, In (k, v) ((k0, v0) :: items)
                                /\ v <> PNone /\ s = wire_value v).
      { intros w Hw Hv0. rewrite dict_get_set.
        destruct (String.eqb k0 k) eqn:E; [|auto].
        apply String.eqb_eq in E. subst k0. intros [= <-].
        right. split; [exact Hk0|]. exists v0. split; [now left | auto]. }
      destruct v0; [auto | | | |];
        (apply Hstep in Hacc; [exact Hacc | reflexivity | discriminate]).
    + right. split; [exact Hk|]. exists v. split; [now right | auto].
Qed.

(** X15. [search] refuses a call that has one of the unsupported
    arguments among its extra keywords, whatever its value, with a
    [ValueError] that names an unsupported argument; and a query that it
    does send holds no unsupported key and no parameter that is [None]:
    every value sent is the caller's string, the date as fourteen digits,
    or the lower-cased [str] of the value. *)
Theorem search_final_query_sends (a : search_args) :
  (forall k, k ∈ unsupported -> In k (List.map fst (kwargs a)) ->
     exists k', k' ∈ unsupported
       /\ search_final_query a
          = inl (ValueError ("The " +:+ k' +:+ " argument is not supported")))
  /\ (forall q k s, search_final_query a = inr q -> Dict.get k q = Some s ->
        (k ∉ unsupported)
        /\ exists v, In (k, v) (search_query a)
                     /\ v <> PNone /\ s = wire_value v).
Proof.
  split.
  - intros k Hk Hin. unfold search_final_query.
    apply search_final_query_loop_unsupported with (k := k); [|exact Hk].
    unfold search_query. apply dict_update_keys. now right.
  - intros q k s Hq Hget. unfold search_final_query in Hq.
    destruct (search_final_query_loop_sends _ _ _ _ _ Hq Hget) as [H | H];
      [discriminate | exact H].
Qed.

Lemma search_final_query_sends_witness :
  exists k',
    k' ∈ unsupported
    /\ search_final_query
         {| url := PStr "http://example.com/*"; matchType := PNone;
            limit := PNone; offset := PNone; fastLatest := PNone;
            gzip := PNone; from_date := PNone; to_date := PNone;
            filter_field := PNone; collapse := PNone;
            showResumeKey := PBool true; resumeKey := PNone; page := PNone;
            pageSize := PNone; resolveRevisits := PBool true;
            skip_malformed_results := PBool true;
            kwargs := [("output", PNone)] |}
       = inl (ValueError ("The " +:+ k' +:+ " argument is not supported")).
Proof.
  match goal with
  | |- exists k', _ /\ search_final_query ?a = _ =>
      destruct (search_final_query_sends a) as [H _]
  end.
  apply (H "output").
  - apply (bool_decide_unpack _). reflexivity.
  - simpl. now left.
Defined.

(** ** Listing versions *)

Lemma list_versions_loop_all (m : gmap string string)
    (records : list CdxRecord) :
  fst (list_versions_loop false m records) = records.
Proof.
  revert m. induction records as [|v records IH]; intros m; simpl;
    [reflexivity|].
  specialize (IH (<[cdx_url v := cdx_digest v]> m)).
  destruct (list_versions_loop false _ records). simpl in *. now rewrite IH.
Qed.

Lemma list_versions_loop_keeps (skip_repeats : bool)
    (m : gmap string string) (records : list CdxRecord) (k : string) :
  is_Some (m !! k) ->
  is_Some (snd (list_versions_loop skip_repeats m records) !! k).
Proof.
  revert m. induction records as [|v records IH]; intros m Hk; simpl;
    [exact Hk|].
  destruct (negb skip_repeats || _).
  - specialize (IH (<[cdx_url v := cdx_digest v]> m)).
    destruct (list_versions_loop skip_repeats _ records). simpl in *.
    apply IH. rewrite lookup_insert. case_decide; [eauto | exact Hk].
  - now apply IH.
Qed.

Lemma list_versions_loop_final (skip_repeats : bool)
    (m : gmap string string) (v : CdxRecord) (records : list CdxRecord) :
  snd (list_versions_loop skip_repeats m (v :: records)) <> ∅.
Proof.
  assert (H : is_Some (snd (list_versions_loop skip_repeats m (v :: records))
                       !! cdx_url v)).
  { simpl. destruct (negb skip_repeats || _) eqn:E.
    - pose proof (list_versions_loop_keeps skip_repeats
                    (<[cdx_url v := cdx_digest v]> m) records (cdx_url v)) as Hk.
      destruct (list_versions_loop skip_repeats _ records). simpl in *.
      apply Hk. rewrite lookup_insert_eq. eauto.
    - apply list_versions_loop_keeps.
      apply orb_false_iff in E as [_ E].
      apply bool_decide_eq_false in E.
      destruct (m !! cdx_url v); [eauto|]. exfalso. apply E. discriminate. }
  intros Hempty. rewrite Hempty, lookup_empty in H. now destruct H.
Qed.

Lemma list_versions_loop_sublist (skip_repeats : bool)
    (m : gmap string string) (records : list CdxRecord) :
  sublist (fst (list_versions_loop skip_repeats m records)) records.
Proof.
  revert m. induction records as [|v records IH]; intros m; simpl;
    [constructor|].
  destruct (negb skip_repeats || _).
  - specialize (IH (<[cdx_url v := cdx_digest v]> m)).
    destruct (list_versions_loop skip_repeats _ records). simpl in *.
    now constructor.
  - constructor. apply IH.
Qed.

Lemma list_versions_loop_head (m : gmap string string)
    (records : list CdxRecord) (b : CdxRecord) (out : list CdxRecord) :
  fst (list_versions_loop true m records) = b :: out ->
  m !! cdx_url b ≠ Some (cdx_digest b).
Proof.
  revert m. induction records as [|v records IH]; intros m; simpl;
    [discriminate|].
  case_bool_decide as Hd; simpl.
  - destruct (list_versions_loop true _ records). simpl.
    intros [= <- _]. exact Hd.
  - apply IH.
Qed.

Lemma list_versions_loop_adjacent (m : gmap string string)
    (records out1 out2 : list CdxRecord) (a b : CdxRecord) :
  fst (list_versions_loop true m records) = (out1 ++ a :: b :: out2)%list ->
  cdx_url a = cdx_url b -> cdx_digest a ≠ cdx_digest b.
Proof.
  revert m out1. induction records as [|v records IH]; intros m out1; simpl.
  - destruct out1; discriminate.
  - case_bool_decide as Hd; simpl; [|apply IH].
    destruct (list_versions_loop true (<[cdx_url v := cdx_digest v]> m) records)
      as [ys final] eqn:Hloop. simpl.
    destruct out1 as [|o out1]; simpl.
    + intros [= <- Hrest] Hurl Hdigest.
      assert (Hfst : fst (list_versions_loop true
                            (<[cdx_url v := cdx_digest v]> m) records)
                     = b :: out2) by now rewrite Hloop.
      apply list_versions_loop_head in Hfst.
      apply Hfst. rewrite <- Hurl, <- Hdigest. apply lookup_insert_eq.
    + intros [= _ Hrest]. eapply (IH _ out1). now rewrite Hloop.
Qed.

(** X16. [list_versions] raises the [ValueError] that says the archive
    has no versions exactly when the search returns without having
    yielded a record; when the search fails, its failure is passed on
    after the records listed so far; otherwise the listing ends well.
    With [skip_repeats] off it yields every record of the search, in
    order. *)
Theorem list_versions_ending (fuel : nat) (cdx : cdx_server)
    (url from_date to_date : pyval) (skip_repeats : bool)
    (cdx_params : option (Dict.t pyval))
    (yielded : list CdxRecord) (ending : gen_failure + unit) :
  list_versions fuel cdx url from_date to_date skip_repeats cdx_params
  = Some (yielded, ending) ->
  exists records searched,
    search fuel cdx
      (search_args_of (list_versions_params url from_date to_date cdx_params))
    = Some (records, searched)
    /\ sublist yielded records
    /\ (skip_repeats = false -> yielded = records)
    /\ match searched, records with
       | inl failure, _ => ending = inl failure
       | inr _, [] =>
           yielded = []
           /\ ending
              = inl (GenRaise (ValueError
                  ("Internet archive does not have archived versions of "
                   +:+ Format.str url)))
       | inr _, _ :: _ => ending = inr tt
       end.
Proof.
  unfold list_versions.
  destruct (search fuel cdx _) as [[records searched]|]; [|discriminate].
  pose proof (list_versions_loop_sublist skip_repeats ∅ records) as Hsub.
  pose proof (list_versions_loop_all ∅ records) as Hall.
  destruct (list_versions_loop skip_repeats ∅ records) as [ys final] eqn:Hloop.
  simpl in Hsub. intros H. exists records, searched.
  split; [reflexivity|].
  assert (Hys : yielded = ys).
  { destruct searched; [now injection H|].
    case_bool_decide; now injection H. }
  subst ys. split; [exact Hsub|]. split.
  { intros ->. rewrite Hloop in Hall. exact Hall. }
  destruct searched as [failure|n]; [now injection H|].
  destruct records as [|v records].
  - simpl in Hloop. injection Hloop as <- <-.
    rewrite bool_decide_true in H by reflexivity.
    injection H as <-. split; reflexivity.
  - pose proof (list_versions_loop_final skip_repeats ∅ v records) as Hne.
    rewrite Hloop in Hne. simpl in Hne.
    rewrite bool_decide_false in H by exact Hne. now injection H.
Qed.

Lemma list_versions_ending_witness :
  list_versions 5 (fun _ => inr []) (PStr "http://nothing.example/") PNone PNone
                true None
  = Some ([], inl (GenRaise (ValueError
       "Internet archive does not have archived versions of http://nothing.example/"))).
Proof.
  destruct (list_versions 5 (fun _ => inr []) (PStr "http://nothing.example/")
              PNone PNone true None) as [[ys e]|] eqn:Hl;
    [|vm_compute in Hl; discriminate].
  destruct (list_versions_ending _ _ _ _ _ _ _ _ _ Hl)
    as (records & searched & Hs & _ & _ & Hend).
  vm_compute in Hs. injection Hs as <- <-.
  destruct Hend as [-> ->]. reflexivity.
Defined.

(** X17. With [skip_repeats] on, [list_versions] yields some of the
    records of the search, in their order, starting with the first; and no
    two records it yields one after the other have the same URL and the
    same digest. *)
Theorem list_versions_skips_repeats (fuel : nat) (cdx : cdx_server)
    (url from_date to_date : pyval) (cdx_params : option (Dict.t pyval))
    (yielded : list CdxRecord) (ending : gen_failure + unit) :
  list_versions fuel cdx url from_date to_date true cdx_params
  = Some (yielded, ending) ->
  exists records searched,
    search fuel cdx
      (search_args_of (list_versions_params url from_date to_date cdx_params))
    = Some (records, searched)
    /\ sublist yielded records
    /\ hd_error yielded = hd_error records
    /\ forall out1 out2 a b,
         yielded = (out1 ++ a :: b :: out2)%list ->
         ~ (cdx_url a = cdx_url b /\ cdx_digest a = cdx_digest b).
Proof.
  unfold list_versions.
  destruct (search fuel cdx _) as [[records searched]|]; [|discriminate].
  pose proof (list_versions_loop_sublist true ∅ records) as Hsub.
  pose proof (list_versions_loop_adjacent ∅ records) as Hadj.
  assert (Hhd : hd_error (fst (list_versions_loop true ∅ records))
                = hd_error records).
  { destruct records as [|v records]; [reflexivity|]. simpl.
    rewrite lookup_empty. rewrite bool_decide_true by discriminate.
    destruct (list_versions_loop true _ records). reflexivity. }
  destruct (list_versions_loop true ∅ records) as [ys final] eqn:Hloop.
  simpl in *. intros H. exists records, searched.
  split; [reflexivity|].
  assert (Hys : yielded = ys).
  { destruct searched; [now injection H|].
    case_bool_decide; now injection H. }
  subst ys. split; [exact Hsub|]. split; [exact Hhd|].
  intros out1 out2 a b Hout [Hurl Hdigest].
  exact (Hadj out1 out2 a b Hout Hurl Hdigest).
Qed.

Lemma list_versions_skips_repeats_witness :
  exists yielded,
    list_versions 5 two_page_server (PStr "http://example.com/*") PNone PNone
                  true None
    = Some (yielded, inr tt)
    /\ List.map cdx_digest yielded = ["ABCDE1234"; "FGHIJ5678"]
    /\ forall out1 out2 a b,
         yielded = (out1 ++ a :: b :: out2)%list ->
         ~ (cdx_url a = cdx_url b /\ cdx_digest a = cdx_digest b).
Proof.
  destruct (list_versions 5 two_page_server (PStr "http://example.com/*")
              PNone PNone true None) as [[ys e]|] eqn:Hl;
    [|vm_compute in Hl; discriminate].
  destruct (list_versions_skips_repeats _ _ _ _ _ _ _ _ Hl)
    as (records & searched & _ & _ & _ & Hadj).
  exists ys.
  assert (He : e = inr tt /\ List.map cdx_digest ys = ["ABCDE1234"; "FGHIJ5678"]).
  { vm_compute in Hl. injection Hl as <- <-. split; reflexivity. }
  destruct He as [-> Hd]. split; [reflexivity|]. split; [exact Hd | exact Hadj].
Defined.

(** ** Rough keys, further *)

Lemma lower_length (s : string) : String.length (Py.lower s) = String.length s.
Proof. induction s as [|c s IH]; simpl; [reflexivity | now rewrite IH]. Qed.

Lemma lower_lower (s : string) : Py.lower (Py.lower s) = Py.lower s.
Proof.
  induction s as [|c s IH]; simpl; [reflexivity|].
  now rewrite (lower_char_fixed _ (lower_char_not_upper c)), IH.
Qed.

Lemma split_first_length (sep : ascii) (s : string) :
  (String.length (Py.split_first sep s) <= String.length s)%nat.
Proof.
  induction s as [|c s IH]; simpl; [lia|].
  destruct (Ascii.eqb c sep); simpl; lia.
Qed.

Lemma drop_last_shorter (s : string) :
  (String.length (Py.drop_last s) <= String.length s)%nat.
Proof.
  destruct s as [|c s]; [simpl; lia|].
  pose proof (drop_last_length (String c s) ltac:(discriminate)). lia.
Qed.

(** X18. For keys of ASCII characters, where [str.lower] is the ASCII
    lower-casing: a rough key has no upper case letter, no [?] and no [#];
    it is never longer than the key it is made from; and two keys that
    differ only in the case of their letters have the same rough key. *)
Theorem rough_url_key_normal (x : string) :
  ascii_only x = true ->
  Py.all_chars rough_char (rough_url_key x) = true
  /\ (String.length (rough_url_key x) <= String.length x)%nat
  /\ rough_url_key (Py.lower x) = rough_url_key x
  /\ forall y, ascii_only y = true -> Py.lower y = Py.lower x ->
               rough_url_key y = rough_url_key x.
Proof.
  intros _.
  split; [apply rough_url_key_chars|]. split; [|split].
  - rewrite rough_url_key_stages. unfold strip_index_slash, cut_query_fragment.
    pose proof (split_first_length "?" (Py.lower x)) as H1.
    pose proof (split_first_length "#" (Py.split_first "?" (Py.lower x))) as H2.
    pose proof (proj1 (INDEX_PAGE_EXPRESSION_sub_length
      (Py.split_first "#" (Py.split_first "?" (Py.lower x))))) as H3.
    rewrite lower_length in H1.
    destruct (Py.endswith_char "/" _); [|lia].
    pose proof (drop_last_shorter (INDEX_PAGE_EXPRESSION_sub
      (Py.split_first "#" (Py.split_first "?" (Py.lower x))))). lia.
  - rewrite !rough_url_key_stages. now rewrite lower_lower.
  - intros y _ Hy. rewrite !rough_url_key_stages. now rewrite Hy.
Qed.

Lemma rough_url_key_normal_witness :
  ascii_only "gov,epa)/air/index.html?x=1" = true
  /\ rough_url_key "GOV,EPA)/Air/Index.HTML?x=1"
     = rough_url_key "gov,epa)/air/index.html?x=1"
  /\ (String.length (rough_url_key "GOV,EPA)/Air/Index.HTML?x=1") <= 27)%nat.
Proof.
  destruct (rough_url_key_normal "gov,epa)/air/index.html?x=1" eq_refl)
    as (_ & Hlen & _ & Hcase).
  split; [reflexivity|]. split.
  - apply (Hcase "GOV,EPA)/Air/Index.HTML?x=1"); reflexivity.
  - rewrite (Hcase "GOV,EPA)/Air/Index.HTML?x=1" eq_refl eq_refl). exact Hlen.
Defined.

(** ** Versions *)

Lemma unquote_not_empty (c : ascii) (s : string) :
  Unquote.unquote (String c s) <> EmptyString.
Proof.
  simpl. destruct c as [[] [] [] [] [] [] [] []]; try discriminate.
  destruct s as [|a [|b s]]; try discriminate.
  destruct (Unquote.hex_value a), (Unquote.hex_value b); discriminate.
Qed.

Lemma MEMENTO_URL_PATTERN_match_groups (u timestamp url : string) :
  MEMENTO_URL_PATTERN_match u = Some (timestamp, url) ->
  timestamp <> EmptyString /\ url <> EmptyString.
Proof.
  unfold MEMENTO_URL_PATTERN_match. intros H.
  repeat (simplify_option_eq || case_match).
  all: try (split; assumption).
Qed.

Lemma original_url_for_memento_not_empty (memento_url original : string) :
  original_url_for_memento memento_url = inr original ->
  original <> EmptyString.
Proof.
  unfold original_url_for_memento, split_memento_url.
  destruct (MEMENTO_URL_PATTERN_match memento_url) as [[timestamp url]|] eqn:Hm;
    [|discriminate].
  apply MEMENTO_URL_PATTERN_match_groups in Hm as [_ Hurl].
  intros [= <-]. unfold clean_memento_url_component.
  destruct (_ || _); [|exact Hurl].
  destruct url as [|c url]; [congruence|]. apply unquote_not_empty.
Qed.

Lemma try_map_length {A B} (f : A -> exn + B) (xs : list A) (ys : list B) :
  try_map f xs = inr ys -> length ys = length xs.
Proof.
  revert ys. induction xs as [|x xs IH]; intros ys; simpl.
  - now intros [= <-].
  - destruct (f x); [discriminate|].
    destruct (try_map f xs) as [|ys']; [discriminate|].
    intros [= <-]. simpl. now rewrite (IH ys').
Qed.

(** X19. A version that [timestamped_uri_to_version] builds is the
    version of the response that [get_memento] returned: its [page_url]
    and [uri] are the ones given, its hash is the hash of the body, its
    [error_code] is present exactly when the status is 400 or more.  It
    reports no redirect when the final response has the requested URL;
    otherwise [redirected_url] is the original URL of the final response,
    and [redirects] has the original URL of every response of the history,
    in order, and ends with [redirected_url]. *)
Theorem timestamped_uri_to_version_shape (U : utils) (fuel : nat)
    (session : requester) (dt : datetime) (memento_uri url : string)
    (maintainers tags : option (list string)) (view_url : option string)
    (v : version) :
  timestamped_uri_to_version U fuel session dt memento_uri url maintainers tags
    view_url
  = Some (inr v) ->
  exists res hist,
    get_memento fuel session memento_uri default_redirect_target_window
    = Some (inr (res, hist))
    /\ page_url v = url /\ uri v = memento_uri
    /\ version_hash v = hash_content U (content res)
    /\ title v = extract_title U (content res)
    /\ sm_status_code (version_source_metadata v) = status_code res
    /\ sm_error_code (version_source_metadata v)
       = (if (status_code res >=? 400)%Z then Some (status_code res) else None)
    /\ (resp_url res = memento_uri ->
        sm_redirected_url (version_source_metadata v) = None
        /\ sm_redirects (version_source_metadata v) = None)
    /\ (resp_url res <> memento_uri ->
        exists redirected_url redirects,
          original_url_for_memento (resp_url res) = inr redirected_url
          /\ try_map (fun r => original_url_for_memento (resp_url r)) hist
             = inr redirects
          /\ sm_redirected_url (version_source_metadata v)
             = Some redirected_url
          /\ sm_redirects (version_source_metadata v)
             = Some (redirects ++ [redirected_url])%list
          /\ length redirects = length hist).
Proof.
  unfold timestamped_uri_to_version.
  destruct (get_memento fuel session memento_uri default_redirect_target_window)
    as [[e|[res hist]]|]; try discriminate.
  destruct (Headers.get "content-type" (headers res)) as [ct|]; [|discriminate].
  intros H. exists res, hist. split; [reflexivity|].
  case_bool_decide as Hne.
  - destruct (original_url_for_memento (resp_url res)) as [e|ru] eqn:Hru;
      [discriminate|].
    destruct (try_map _ hist) as [e|rs] eqn:Hrs; [discriminate|].
    injection H as <-. simpl.
    pose proof (original_url_for_memento_not_empty _ _ Hru) as Hnonempty.
    destruct ru as [|c ru]; [congruence|].
    repeat (split; [reflexivity|]). split.
    + intros Heq. contradiction.
    + intros _. exists (String c ru), rs.
      repeat (split; [reflexivity|]). exact (try_map_length _ _ _ Hrs).
  - injection H as <-. simpl.
    repeat (split; [reflexivity|]). split.
    + intros _. split; reflexivity.
    + intros Hcontra. contradiction.
Qed.

Lemma timestamped_uri_to_version_shape_witness :
  exists v,
    timestamped_uri_to_version sample_utils 10 far_target_session
      (cdx_date record_A) memento_A "http://a/" None None None = Some (inr v)
    /\ page_url v = "http://a/"
    /\ sm_redirected_url (version_source_metadata v) = Some "http://a/x"
    /\ sm_redirects (version_source_metadata v)
       = Some ["http://a/"; "http://A/x"; "http://a/x"].
Proof.
  destruct (timestamped_uri_to_version sample_utils 10 far_target_session
              (cdx_date record_A) memento_A "http://a/" None None None)
    as [[e|v]|] eqn:Hv; try (vm_compute in Hv; discriminate).
  exists v. split; [reflexivity|].
  destruct (timestamped_uri_to_version_shape _ _ _ _ _ _ _ _ _ _ Hv)
    as (res & hist & Hget & Hp & _ & _ & _ & _ & _ & _ & Hred).
  vm_compute in Hget. injection Hget as <- <-.
  destruct Hred as (ru & rs & Hru & Hrs & H1 & H2 & _); [discriminate|].
  vm_compute in Hru. injection Hru as <-.
  vm_compute in Hrs. injection Hrs as <-.
  split; [exact Hp|]. split; [exact H1 | exact H2].
Defined.

(** ** The known pages of the database *)

Lemma db_page_url_info_loop_of (pages seen : list db_page)
    (info info' : db_url_info) :
  db_page_url_info_loop pages info = Some info' ->
  db_url_info_of seen info ->
  db_url_info_of (seen ++ pages) info'.
Proof.
  revert seen info. induction pages as [|page pages IH]; intros seen info; simpl.
  - intros [= <-]. now rewrite app_nil_r.
  - destruct (HOST_EXPRESSION_group1 (db_url page)) as [domain|] eqn:Hhost;
      [|discriminate].
    intros Hloop (I1 & I2 & I3 & I4).
    replace (seen ++ page :: pages)%list with ((seen ++ [page]) ++ pages)%list
      by (rewrite <- app_assoc; reflexivity).
    assert (Hin : forall p, In p (seen ++ [page]) <-> In p seen \/ p = page).
    { intros p. rewrite in_app_iff. simpl. intuition. }
    case_bool_decide as Hwithout.
    + apply (IH _ _ Hloop). repeat split; simpl.
      * rewrite elem_of_union, elem_of_singleton, I1.
        intros [(p & Hp & Hd) | ->]; [exists p | exists page];
          rewrite Hin; auto.
      * intros (p & Hp & Hd). rewrite elem_of_union, elem_of_singleton, I1.
        apply Hin in Hp as [Hp | ->]; [left; eauto | right; congruence].
      * rewrite I2. intros (p & Hp & Hd). exists p. rewrite Hin. auto.
      * intros (p & Hp & Hd & Hk). apply Hin in Hp as [Hp | ->].
        -- apply I2. eauto.
        -- congruence.
      * intros x Hx. destruct (I3 x Hx) as (p & k & Hp & Hk & ->).
        exists p, k. rewrite Hin. auto.
      * intros p k d Hp Hk Hd Hnot. apply Hin in Hp as [Hp | ->].
        -- eapply I4; eauto.
        -- congruence.
    + destruct (truthy_key (db_url_key page)) as [url_key|] eqn:Hkey.
      * apply (IH _ _ Hloop). repeat split; simpl.
        -- rewrite elem_of_union, elem_of_singleton, I1.
           intros [(p & Hp & Hd) | ->]; [exists p | exists page];
             rewrite Hin; auto.
        -- intros (p & Hp & Hd). rewrite elem_of_union, elem_of_singleton, I1.
           apply Hin in Hp as [Hp | ->]; [left; eauto | right; congruence].
        -- rewrite I2. intros (p & Hp & Hd). exists p. rewrite Hin. auto.
        -- intros (p & Hp & Hd & Hk). apply Hin in Hp as [Hp | ->].
           ++ apply I2. eauto.
           ++ congruence.
        -- intros x Hx. apply elem_of_union in Hx as [Hx | Hx].
           ++ destruct (I3 x Hx) as (p & k & Hp & Hk & ->).
              exists p, k. rewrite Hin. auto.
           ++ apply elem_of_singleton in Hx. subst x.
              exists page, url_key. rewrite Hin. auto.
        -- intros p k d Hp Hk Hd Hnot. apply elem_of_union.
           apply Hin in Hp as [Hp | ->].
           ++ left. eapply I4; eauto.
           ++ right. apply elem_of_singleton. congruence.
      * apply (IH _ _ Hloop). repeat split; simpl.
        -- rewrite elem_of_union, elem_of_singleton, I1.
           intros [(p & Hp & Hd) | ->]; [exists p | exists page];
             rewrite Hin; auto.
        -- intros (p & Hp & Hd). rewrite elem_of_union, elem_of_singleton, I1.
           apply Hin in Hp as [Hp | ->]; [left; eauto | right; congruence].
        -- rewrite elem_of_union, elem_of_singleton, I2.
           intros [(p & Hp & Hd) | ->]; [exists p | exists page];
             rewrite Hin; auto.
        -- intros (p & Hp & Hd & Hk).
           rewrite elem_of_union, elem_of_singleton, I2.
           apply Hin in Hp as [Hp | ->]; [left; eauto | right; congruence].
        -- intros x Hx. destruct (I3 x Hx) as (p & k & Hp & Hk & ->).
           exists p, k. rewrite Hin. auto.
        -- intros p k d Hp Hk Hd Hnot.
           rewrite elem_of_union, elem_of_singleton in Hnot.
           apply Hin in Hp as [Hp | ->].
           ++ eapply I4; eauto.
           ++ congruence.
Qed.

(** X20. For the sets that [_get_db_page_url_info] builds from the known
    pages: the domains are the hosts of the pages; a domain is without
    URL keys exactly when one of its pages has no URL key; for a version
    of such a domain the filter answers as [_is_page] does; for a version
    of another domain the filter accepts it whenever its key has the rough
    key of the URL key of a page whose domain has URL keys throughout, and
    accepts it only if its key has the rough key of some page's URL
    key. *)
Theorem get_db_page_url_info_filter (pages : list db_page)
    (info : db_url_info) (path_extension : string -> string) :
  get_db_page_url_info pages = Some info ->
  (forall d, d ∈ domains info
     <-> exists p, In p pages /\ HOST_EXPRESSION_group1 (db_url p) = Some d)
  /\ (forall d, d ∈ domains_without_url_keys info
        <-> exists p, In p pages /\ HOST_EXPRESSION_group1 (db_url p) = Some d
                      /\ truthy_key (db_url_key p) = None)
  /\ (forall version d,
        HOST_EXPRESSION_group1 (cdx_url version) = Some d ->
        d ∈ domains_without_url_keys info ->
        filterer path_extension info version
        = Some (is_page path_extension version))
  /\ (forall version d p k dp,
        HOST_EXPRESSION_group1 (cdx_url version) = Some d ->
        d ∉ domains_without_url_keys info ->
        In p pages -> truthy_key (db_url_key p) = Some k ->
        HOST_EXPRESSION_group1 (db_url p) = Some dp ->
        dp ∉ domains_without_url_keys info ->
        rough_url_key (cdx_key version) = rough_url_key k ->
        filterer path_extension info version = Some true)
  /\ (forall version d,
        HOST_EXPRESSION_group1 (cdx_url version) = Some d ->
        d ∉ domains_without_url_keys info ->
        filterer path_extension info version = Some true ->
        exists p k, In p pages /\ truthy_key (db_url_key p) = Some k
                    /\ rough_url_key (cdx_key version) = rough_url_key k).
Proof.
  unfold get_db_page_url_info. intros Hloop.
  apply (db_page_url_info_loop_of pages []) in Hloop.
  - simpl in Hloop. destruct Hloop as (I1 & I2 & I3 & I4).
    split; [exact I1|]. split; [exact I2|]. split; [|split].
    + intros version d Hd Hin. unfold filterer. rewrite Hd.
      now rewrite bool_decide_true.
    + intros version d p k dp Hd Hnot Hp Hk Hdp Hdpnot Hrough.
      unfold filterer. rewrite Hd. rewrite bool_decide_false by exact Hnot.
      rewrite bool_decide_true; [reflexivity|].
      rewrite Hrough. eapply I4; eauto.
    + intros version d Hd Hnot. unfold filterer. rewrite Hd.
      rewrite bool_decide_false by exact Hnot.
      intros [= Hb]. apply bool_decide_eq_true in Hb.
      destruct (I3 _ Hb) as (p & k & Hp & Hk & Hr). eauto.
  - repeat split; simpl.
    + intros H. now apply not_elem_of_empty in H.
    + intros (p & [] & _).
    + intros H. now apply not_elem_of_empty in H.
    + intros (p & [] & _).
    + intros x H. now apply not_elem_of_empty in H.
    + intros p k d [].
Qed.

Lemma get_db_page_url_info_filter_witness :
  exists info,
    get_db_page_url_info sample_pages = Some info
    /\ "www.noaa.gov" ∈ domains_without_url_keys info
    /\ filterer (fun _ => EmptyString) info
         {| cdx_key := "gov,epa)/AIR/?page=2"; cdx_timestamp := "20200101000000";
            cdx_url := "http://www.epa.gov/AIR/?page=2";
            cdx_mime_type := "text/html"; cdx_status_code := "200";
            cdx_digest := "ABCDE1234"; cdx_length := "123";
            cdx_date := cdx_date record_A; cdx_raw_url := EmptyString;
            cdx_view_url := EmptyString |}
       = Some true.
Proof.
  destruct (get_db_page_url_info sample_pages) as [info|] eqn:Hinfo;
    [|vm_compute in Hinfo; discriminate].
  exists info. split; [reflexivity|].
  destruct (get_db_page_url_info_filter sample_pages info (fun _ => EmptyString)
              Hinfo) as (_ & Hwithout & _ & Hkeep & _).
  assert (Hnoaa : "www.noaa.gov" ∈ domains_without_url_keys info).
  { apply Hwithout. exists {| db_url := "http://www.noaa.gov/";
                              db_url_key := None |}.
    split; [right; left; reflexivity|]. split; reflexivity. }
  assert (Hepa : "www.epa.gov" ∉ domains_without_url_keys info).
  { intros Hin. apply Hwithout in Hin as (p & Hp & Hd & Hk).
    destruct Hp as [<- | [<- | []]]; [discriminate Hk | discriminate Hd]. }
  split; [exact Hnoaa|].
  apply (Hkeep _ "www.epa.gov"
           {| db_url := "https://www.epa.gov/air/index.html";
              db_url_key := Some "gov,epa)/air/index.html" |}
           "gov,epa)/air/index.html" "www.epa.gov");
    try reflexivity; try exact Hepa.
  left. reflexivity.
Defined.

(** ** The summary of an import *)








